(** * The design canvas engine of the product designer page

    A shallow embedding of [src/pages/Designer/DesignerPage.tsx]: the
    geometry of the background fit and of the safe zone, the drag and
    resize handlers of the placed objects, the session operations (add,
    select, delete) and the add-to-cart action.

    Numbers.  A JavaScript [number] is modelled by an exact rational
    ([Q]): every finite double is a rational, [Math.min] and [Math.max]
    are [Qmin] and [Qmax], and the rounding of the double arithmetic is
    left out.  Results are therefore stated up to [==], the equality of
    fractions.  The scenarios with concrete numbers are run a second time
    on IEEE binary64 values in [Module Double], where the rounding is the
    one of the JavaScript engine.  [NaN] and the infinities have no
    counterpart in [Q]: division by zero (an image of width 0) gives
    [Infinity] in JavaScript and [0] in [Q], and the statements that
    divide by the size of an image are made for images of positive
    size. *)

From Stdlib Require Import QArith Qminmax Qabs Lqa ZArith NArith Lia.
From Stdlib Require Import List String Ascii Bool.
From Stdlib Require Import DecimalString DecimalFacts DecimalN.
From Stdlib Require Import Floats.
Import ListNotations.

Local Open Scope Q_scope.

(** ** Geometry *)

(** [function clamp(v, min, max) { return Math.max(min, Math.min(max, v)); }] *)
Definition clamp (v min max : Q) : Q := Qmax min (Qmin max v).

(** The [{ x, y, width, height }] object of the safe zone. *)
Record SafeZone : Type := mkSafeZone
  { sz_x : Q; sz_y : Q; sz_width : Q; sz_height : Q }.

(** The object computed by [bgDraw]. *)
Record BackgroundFit : Type := mkBackgroundFit
  { bg_x : Q; bg_y : Q; bg_width : Q; bg_height : Q; bg_scale : Q }.

(** What the code reads of the loaded [HTMLImageElement]. *)
Record BgImage : Type := mkBgImage { bgi_width : Q; bgi_height : Q }.

(** What the geometry reads of a [Variant]. *)
Record Variant : Type := mkVariant
  { v_id : Z;
    printAreaTop : Q; printAreaLeft : Q;
    printAreaWidth : Q; printAreaHeight : Q }.

Definition DESIGN_W : Q := 520.
Definition DESIGN_H : Q := 680.

(** [const bgDraw = useMemo(() => { if (!bgImage) return null; ... })] *)
Definition bgDraw (bgImage : option BgImage) : option BackgroundFit :=
  match bgImage with
  | None => None
  | Some img =>
      let scale := Qmin (DESIGN_W / bgi_width img) (DESIGN_H / bgi_height img) in
      let width := bgi_width img * scale in
      let height := bgi_height img * scale in
      Some {| bg_x := (DESIGN_W - width) / 2;
              bg_y := (DESIGN_H - height) / 2;
              bg_width := width;
              bg_height := height;
              bg_scale := scale |}
  end.

(** [const safeZone = useMemo(() => { if (!variant || !bgDraw || !bgImage)
    return null; ... })] *)
Definition safeZone (variant : option Variant) (bgDraw : option BackgroundFit)
    (bgImage : option BgImage) : option SafeZone :=
  match variant, bgDraw, bgImage with
  | Some v, Some bg, Some img =>
      let sx := bg_width bg / bgi_width img in
      let sy := bg_height bg / bgi_height img in
      Some {| sz_x := bg_x bg + printAreaLeft v * sx;
              sz_y := bg_y bg + printAreaTop v * sy;
              sz_width := printAreaWidth v * sx;
              sz_height := printAreaHeight v * sy |}
  | _, _, _ => None
  end.

(** The safe zone of a variant drawn over its own mockup image: the two
    [useMemo] values chained as the component does. *)
Definition safeZoneOf (variant : option Variant) (bgImage : option BgImage)
    : option SafeZone :=
  safeZone variant (bgDraw bgImage) bgImage.

(** An axis-aligned rectangle of the canvas, in design units. *)
Record Box : Type := mkBox { b_x : Q; b_y : Q; b_width : Q; b_height : Q }.

(** [inside b z]: the rectangle [b] lies within the safe zone [z]. *)
Definition inside (b : Box) (z : SafeZone) : Prop :=
  sz_x z <= b_x b /\ sz_y z <= b_y b /\
  b_x b + b_width b <= sz_x z + sz_width z /\
  b_y b + b_height b <= sz_y z + sz_height z.

Definition insideb (b : Box) (z : SafeZone) : bool :=
  Qle_bool (sz_x z) (b_x b) && Qle_bool (sz_y z) (b_y b) &&
  Qle_bool (b_x b + b_width b) (sz_x z + sz_width z) &&
  Qle_bool (b_y b + b_height b) (sz_y z + sz_height z).

(** Two numbers agree to the nearest design unit. *)
Definition approx (a b : Q) : Prop := Qabs (a - b) < 1 # 2.

(** ** Placed objects and their canvas nodes *)

(** [type DesignImageItem]; the [type: 'image'] tag is the constructor
    [Image] of [DesignObject] below. *)
Record DesignImageItem : Type := mkImageItem
  { im_id : string; im_url : string;
    im_x : Q; im_y : Q; im_width : Q; im_height : Q; im_rotation : Q }.

(** [type DesignTextItem]. *)
Record DesignTextItem : Type := mkTextItem
  { tx_id : string; tx_text : string;
    tx_x : Q; tx_y : Q; tx_rotation : Q; tx_fontSize : Q;
    tx_fontFamily : string; tx_fill : string }.

(** [type DesignObject = DesignImageItem | DesignTextItem]. *)
Inductive DesignObject : Type :=
| Image (it : DesignImageItem)
| Text (it : DesignTextItem).

Definition objId (o : DesignObject) : string :=
  match o with
  | Image it => im_id it
  | Text it => tx_id it
  end.

(** The attributes of a canvas node that the handlers read and write
    ([node.x()], [node.width()], [node.scaleX()], ...).  For a text node
    the width and the height are the ones the renderer measured. *)
Record Node : Type := mkNode
  { n_x : Q; n_y : Q; n_width : Q; n_height : Q;
    n_scaleX : Q; n_scaleY : Q; n_rotation : Q }.

(** [node.x(v)], [node.y(v)], [node.scaleX(v)], [node.scaleY(v)]. *)
Definition setX (v : Q) (n : Node) : Node :=
  mkNode v (n_y n) (n_width n) (n_height n) (n_scaleX n) (n_scaleY n) (n_rotation n).
Definition setY (v : Q) (n : Node) : Node :=
  mkNode (n_x n) v (n_width n) (n_height n) (n_scaleX n) (n_scaleY n) (n_rotation n).
Definition setScaleX (v : Q) (n : Node) : Node :=
  mkNode (n_x n) (n_y n) (n_width n) (n_height n) v (n_scaleY n) (n_rotation n).
Definition setScaleY (v : Q) (n : Node) : Node :=
  mkNode (n_x n) (n_y n) (n_width n) (n_height n) (n_scaleX n) v (n_rotation n).



(** [DesignImage.onDragEnd]: the item handed to [onChange]. *)
Definition image_onDragEnd (item : DesignImageItem) (node : Node) : DesignImageItem :=
  mkImageItem (im_id item) (im_url item) (n_x node) (n_y node)
    (im_width item) (im_height item) (im_rotation item).

(** [DesignText.onDragEnd]. *)
Definition text_onDragEnd (item : DesignTextItem) (node : Node) : DesignTextItem :=
  mkTextItem (tx_id item) (tx_text item) (n_x node) (n_y node)
    (tx_rotation item) (tx_fontSize item) (tx_fontFamily item) (tx_fill item).

(** [DesignImage.onTransformEnd]: the node as the handler leaves it and
    the item handed to [onChange]. *)
Definition image_onTransformEnd (safeZone : SafeZone) (item : DesignImageItem)
    (node : Node) : Node * DesignImageItem :=
  let scaleX := n_scaleX node in
  let scaleY := n_scaleY node in
  let node := setScaleY 1 (setScaleX 1 node) in
  let nextWidth := Qmax 5 (n_width node * scaleX) in
  let nextHeight := Qmax 5 (n_height node * scaleY) in
  let maxX := sz_x safeZone + sz_width safeZone in
  let maxY := sz_y safeZone + sz_height safeZone in
  let nextX := clamp (n_x node) (sz_x safeZone) (maxX - nextWidth) in
  let nextY := clamp (n_y node) (sz_y safeZone) (maxY - nextHeight) in
  let node := setY nextY (setX nextX node) in
  (node,
   mkImageItem (im_id item) (im_url item) nextX nextY nextWidth nextHeight
     (n_rotation node)).

(** [DesignText.onTransformEnd]. *)
Definition text_onTransformEnd (item : DesignTextItem) (node : Node)
    : Node * DesignTextItem :=
  let scaleX := n_scaleX node in
  let nextFontSize := Qmax 12 (Qmin 100 (tx_fontSize item * scaleX)) in
  let node := setScaleY 1 (setScaleX 1 node) in
  (node,
   mkTextItem (tx_id item) (tx_text item) (n_x node) (n_y node)
     (n_rotation node) nextFontSize (tx_fontFamily item) (tx_fill item)).






(** ** Bounding boxes *)

(** The cosine and the sine of an angle given in degrees, for the right
    angles, where both are rational; [None] on the other angles. *)
Definition rotationDir (deg : Q) : option (Q * Q) :=
  if Qeq_bool deg 0 then Some (1, 0)
  else if Qeq_bool deg 90 then Some (0, 1)
  else if Qeq_bool deg 180 then Some (-1 # 1, 0)
  else if Qeq_bool deg 270 then Some (0, -1 # 1)
  else if Qeq_bool deg (-90 # 1) then Some (0, -1 # 1)
  else if Qeq_bool deg (-180 # 1) then Some (-1 # 1, 0)
  else None.

Definition Qmin4 (a b c d : Q) : Q := Qmin (Qmin a b) (Qmin c d).
Definition Qmax4 (a b c d : Q) : Q := Qmax (Qmax a b) (Qmax c d).

(** The axis-aligned box around a [w] x [h] rectangle drawn with its
    point [(ox, oy)] at [(x, y)] and turned around that point by the angle
    of cosine [c] and sine [s]: a point [(u, v)] of the rectangle lands at
    [(x + c*(u-ox) - s*(v-oy), y + s*(u-ox) + c*(v-oy))]. *)
Definition clientRect (c s x y w h ox oy : Q) : Box :=
  let px (u v : Q) := x + c * (u - ox) - s * (v - oy) in
  let py (u v : Q) := y + s * (u - ox) + c * (v - oy) in
  let x0 := Qmin4 (px 0 0) (px w 0) (px 0 h) (px w h) in
  let x1 := Qmax4 (px 0 0) (px w 0) (px 0 h) (px w h) in
  let y0 := Qmin4 (py 0 0) (py w 0) (py 0 h) (py w h) in
  let y1 := Qmax4 (py 0 0) (py w 0) (py 0 h) (py w h) in
  mkBox x0 y0 (x1 - x0) (y1 - y0).

(** The rectangle [(x, y, width, height)] of an image item, rotation left
    out: the rectangle the handlers clamp. *)
Definition imageRect (item : DesignImageItem) : Box :=
  mkBox (im_x item) (im_y item) (im_width item) (im_height item).

(** The bounding box of an image item as drawn, at a right angle. *)
Definition imageBox (item : DesignImageItem) : option Box :=
  match rotationDir (im_rotation item) with
  | Some (c, s) =>
      Some (clientRect c s (im_x item) (im_y item) (im_width item) (im_height item) 0 0)
  | None => None
  end.



(** ** The design session *)

(** The two pieces of component state [objects] and [selectedId]. *)
Record Session : Type := mkSession
  { objects : list DesignObject; selectedId : option string }.

Definition emptySession : Session := mkSession [] None.

(** The result of a call that can throw (or of a promise that can
    reject) with a message. *)
Inductive outcome (A : Type) : Type :=
| Done (a : A)
| Thrown (msg : string).
Arguments Done {A} a.
Arguments Thrown {A} msg.

(** A non-negative integer printed in decimal, as a template literal
    prints [Date.now()]. *)
Definition decimal (n : N) : string := NilEmpty.string_of_uint (N.to_uint n).

(** [`img_${Date.now()}_${Math.random().toString(16).slice(2)}`] and the
    same with [txt]: [now] is the clock's value and [rnd] the hexadecimal
    digits of the random number, both read when the id is made. *)
Definition newId (prefix : string) (now : N) (rnd : string) : string :=
  (prefix ++ "_" ++ decimal now ++ "_" ++ rnd)%string.

(** The two kinds of ids. *)
Definition isPrefix (p : string) : Prop := p = "img"%string \/ p = "txt"%string.

(** No character of [s] is the underscore. *)
Fixpoint noUnderscore (s : string) : bool :=
  match s with
  | EmptyString => true
  | String c s => negb (Ascii.eqb c "_") && noUnderscore s
  end.

(** [onUploadFileSelected(file)]: [asset] is the result of
    [await uploadAsset(file)], and [s] the state that the two updates
    apply to. *)
Definition onUploadFileSelected (safeZone : option SafeZone)
    (asset : outcome string) (now : N) (rnd : string) (s : Session)
    : outcome Session :=
  match safeZone with
  | None => Thrown "Print area is not ready"
  | Some safeZone =>
      match asset with
      | Thrown msg => Thrown msg
      | Done url =>
          let id := newId "img" now rnd in
          let initialW := Qmin 240 (sz_width safeZone) in
          let initialH := initialW in
          let x := sz_x safeZone + (sz_width safeZone - initialW) / 2 in
          let y := sz_y safeZone + (sz_height safeZone - initialH) / 2 in
          Done (mkSession
                  (objects s ++ [Image (mkImageItem id url x y initialW initialH 0)])
                  (Some id))
      end
  end.

(** [addText()]. *)
Definition addText (safeZone : option SafeZone) (now : N) (rnd : string)
    (s : Session) : Session :=
  match safeZone with
  | None => s
  | Some safeZone =>
      let id := newId "txt" now rnd in
      mkSession
        (objects s ++
           [Text (mkTextItem id "Your text"
                    (sz_x safeZone + sz_width safeZone / 2)
                    (sz_y safeZone + sz_height safeZone / 2)
                    0 36 "Roboto" "#ffffff")])
        (Some id)
  end.

(** [!selectedId] is false exactly on a non-empty string. *)
Definition truthy (selectedId : option string) : option string :=
  match selectedId with
  | Some id => if (id =? "")%string then None else Some id
  | None => None
  end.

(** [centerHorizontally()] and [centerVertically()]. *)
Definition centerHorizontally (safeZone : option SafeZone) (s : Session) : Session :=
  match safeZone, truthy (selectedId s) with
  | Some safeZone, Some sel =>
      mkSession
        (map (fun it =>
                if negb (objId it =? sel)%string then it
                else match it with
                     | Image it =>
                         let w := im_width it in
                         Image (mkImageItem (im_id it) (im_url it)
                                  (sz_x safeZone + (sz_width safeZone - w) / 2)
                                  (im_y it) (im_width it) (im_height it) (im_rotation it))
                     | Text it =>
                         Text (mkTextItem (tx_id it) (tx_text it)
                                 (sz_x safeZone + sz_width safeZone / 2)
                                 (tx_y it) (tx_rotation it) (tx_fontSize it)
                                 (tx_fontFamily it) (tx_fill it))
                     end)
             (objects s))
        (selectedId s)
  | _, _ => s
  end.

Definition centerVertically (safeZone : option SafeZone) (s : Session) : Session :=
  match safeZone, truthy (selectedId s) with
  | Some safeZone, Some sel =>
      mkSession
        (map (fun it =>
                if negb (objId it =? sel)%string then it
                else match it with
                     | Image it =>
                         let h := im_height it in
                         Image (mkImageItem (im_id it) (im_url it) (im_x it)
                                  (sz_y safeZone + (sz_height safeZone - h) / 2)
                                  (im_width it) (im_height it) (im_rotation it))
                     | Text it =>
                         Text (mkTextItem (tx_id it) (tx_text it) (tx_x it)
                                 (sz_y safeZone + sz_height safeZone / 2)
                                 (tx_rotation it) (tx_fontSize it)
                                 (tx_fontFamily it) (tx_fill it))
                     end)
             (objects s))
        (selectedId s)
  | _, _ => s
  end.

(** [deleteSelected()]. *)
Definition deleteSelected (s : Session) : Session :=
  match truthy (selectedId s) with
  | None => s
  | Some sel =>
      mkSession (filter (fun it => negb (objId it =? sel)%string) (objects s)) None
  end.

(** The patches that the text options panel hands to
    [updateSelectedText]. *)
Inductive TextPatch : Type :=
| PatchText (text : string)
| PatchFill (fill : string)
| PatchFontSize (fontSize : Q)
| PatchFontFamily (fontFamily : string).

Definition applyPatch (patch : TextPatch) (it : DesignTextItem) : DesignTextItem :=
  match patch with
  | PatchText text =>
      mkTextItem (tx_id it) text (tx_x it) (tx_y it) (tx_rotation it)
        (tx_fontSize it) (tx_fontFamily it) (tx_fill it)
  | PatchFill fill =>
      mkTextItem (tx_id it) (tx_text it) (tx_x it) (tx_y it) (tx_rotation it)
        (tx_fontSize it) (tx_fontFamily it) fill
  | PatchFontSize fontSize =>
      mkTextItem (tx_id it) (tx_text it) (tx_x it) (tx_y it) (tx_rotation it)
        fontSize (tx_fontFamily it) (tx_fill it)
  | PatchFontFamily fontFamily =>
      mkTextItem (tx_id it) (tx_text it) (tx_x it) (tx_y it) (tx_rotation it)
        (tx_fontSize it) fontFamily (tx_fill it)
  end.

(** [updateSelectedText(patch)]. *)
Definition updateSelectedText (patch : TextPatch) (s : Session) : Session :=
  match truthy (selectedId s) with
  | None => s
  | Some sel =>
      mkSession
        (map (fun it =>
                if negb (objId it =? sel)%string then it
                else match it with
                     | Image _ => it
                     | Text t => Text (applyPatch patch t)
                     end)
             (objects s))
        (selectedId s)
  end.

(** The [onChange] prop of the object rendered for [item]:
    [setObjects((prev) => prev.map((it) => (it.id === item.id ? next : it)))]. *)
Definition onChange (itemId : string) (next : DesignObject) (s : Session) : Session :=
  mkSession
    (map (fun it => if (objId it =? itemId)%string then next else it) (objects s))
    (selectedId s).

(** The [onSelect] prop, [() => setSelectedId(item.id)], exists for the
    rendered objects only: a click selects an object of the list. *)
Definition select (id : string) (s : Session) : Session :=
  if existsb (fun it => (objId it =? id)%string) (objects s)
  then mkSession (objects s) (Some id)
  else s.

(** A click on the empty stage: [setSelectedId(null)]. *)
Definition stageClick (s : Session) : Session := mkSession (objects s) None.

(** The events that change the session. *)
Inductive Event : Type :=
| EUploaded (safeZone : option SafeZone) (asset : outcome string) (now : N) (rnd : string)
| EAddText (safeZone : option SafeZone) (now : N) (rnd : string)
| ESelect (id : string)
| EStageClick
| EDeleteSelected
| ECenterHorizontally (safeZone : option SafeZone)
| ECenterVertically (safeZone : option SafeZone)
| EUpdateSelectedText (patch : TextPatch)
| EImageDragEnd (item : DesignImageItem) (node : Node)
| EImageTransformEnd (safeZone : SafeZone) (item : DesignImageItem) (node : Node)
| ETextDragEnd (item : DesignTextItem) (node : Node)
| ETextTransformEnd (item : DesignTextItem) (node : Node).

Definition step (s : Session) (e : Event) : Session :=
  match e with
  | EUploaded safeZone asset now rnd =>
      match onUploadFileSelected safeZone asset now rnd s with
      | Done s' => s'
      | Thrown _ => s
      end
  | EAddText safeZone now rnd => addText safeZone now rnd s
  | ESelect id => select id s
  | EStageClick => stageClick s
  | EDeleteSelected => deleteSelected s
  | ECenterHorizontally safeZone => centerHorizontally safeZone s
  | ECenterVertically safeZone => centerVertically safeZone s
  | EUpdateSelectedText patch => updateSelectedText patch s
  | EImageDragEnd item node =>
      onChange (im_id item) (Image (image_onDragEnd item node)) s
  | EImageTransformEnd safeZone item node =>
      onChange (im_id item) (Image (snd (image_onTransformEnd safeZone item node))) s
  | ETextDragEnd item node =>
      onChange (tx_id item) (Text (text_onDragEnd item node)) s
  | ETextTransformEnd item node =>
      onChange (tx_id item) (Text (snd (text_onTransformEnd item node))) s
  end.

(** The session after a sequence of events, from the empty session the
    component starts with. *)
Definition run (es : list Event) : Session := fold_left step es emptySession.

(** The ids of the objects of the session, in z-order. *)
Definition ids (s : Session) : list string := map objId (objects s).

(** What holds of every session that the events can produce. *)
Definition selection_ok (s : Session) : Prop :=
  (forall id, selectedId s = Some id -> In id (ids s)) /\
  (forall id, In id (ids s) -> id <> ""%string).

(** The three ways in which an event changes the ids and the selection:
    it keeps the ids, and keeps the selection, clears it or moves it to an
    object of the list; it appends an object with a new id and selects it;
    it deletes the objects of the selected id and clears the selection. *)
Inductive Effect (s s' : Session) : Prop :=
| Kept :
    ids s' = ids s ->
    selectedId s' = selectedId s \/ selectedId s' = None \/
    (exists id, selectedId s' = Some id /\ In id (ids s)) ->
    Effect s s'
| Added (p : string) (t : N) (r : string) :
    isPrefix p ->
    ids s' = ids s ++ [newId p t r] ->
    selectedId s' = Some (newId p t r) ->
    Effect s s'
| Deleted (sel : string) :
    selectedId s = Some sel -> sel <> ""%string ->
    selectedId s' = None ->
    (forall id, In id (ids s') <-> In id (ids s) /\ id <> sel) ->
    Effect s s'.

(** ** Choosing the variant *)

(** [Product], as far as [pickVariant] reads it: [variants?: Variant[]]. *)
Record Product : Type := mkProduct { p_variants : option (list Variant) }.

(** [product.variants ?? []]. *)
Definition variantsOf (product : Product) : list Variant :=
  match p_variants product with Some l => l | None => [] end.

(** [pickVariant(product, variantId)]; [!variantId] holds for [null] and
    for [0] (the caller never passes [NaN]). *)
Definition pickVariant (product : Product) (variantId : option Z) : option Variant :=
  let variants := variantsOf product in
  match variants with
  | [] => None
  | first :: _ =>
      match variantId with
      | None => Some first
      | Some id =>
          if (id =? 0)%Z then Some first
          else match find (fun v => (v_id v =? id)%Z) variants with
               | Some v => Some v
               | None => Some first
               end
      end
  end.

(** ** Add to cart *)

(** The calls that [doAddToCart] issues to its collaborators. *)
Inductive Call : Type :=
| OpenAuthModal
| ToastError
| ToastSuccess
| ExportPreview   (* [stage.toDataURL] and the fetch of its blob *)
| UploadAsset     (* [uploadAsset(previewFile)] *)
| CartAdd.        (* [apiPost('/cart/add', ...)] *)

Definition Call_eq_dec (a b : Call) : {a = b} + {a <> b}.
Proof. decide equality. Defined.

(** The [await] at which an invocation of [doAddToCart] is suspended. *)
Inductive Await : Type :=
| AwaitBlob
| AwaitUpload
| AwaitCartAdd.

(** The page as [doAddToCart] sees it.  React re-renders after an event
    handler, or the continuation of an [await], has run and before the
    next event is dispatched, so the handler of a click reads
    [isAddingToCart] as it was last set. *)
Record Page : Type := mkPage
  { authenticated : bool;   (* [auth.user && auth.status === 'authenticated'] *)
    productReady : bool;    (* [product && variant] *)
    stageReady : bool;      (* [stageRef.current] *)
    isAddingToCart : bool;
    calls : list Call;      (* the calls issued so far, oldest first *)
    inflight : list Await   (* the suspended invocations *) }.

Definition issue (c : Call) (p : Page) : Page :=
  mkPage (authenticated p) (productReady p) (stageReady p) (isAddingToCart p)
    (calls p ++ [c]) (inflight p).

Definition setIsAddingToCart (b : bool) (p : Page) : Page :=
  mkPage (authenticated p) (productReady p) (stageReady p) b
    (calls p) (inflight p).

Definition setInflight (l : list Await) (p : Page) : Page :=
  mkPage (authenticated p) (productReady p) (stageReady p) (isAddingToCart p)
    (calls p) l.

(** The [catch] and [finally] blocks. *)
Definition failed (p : Page) : Page :=
  setIsAddingToCart false (issue ToastError p).

(** [doAddToCart()] up to its first suspension. *)
Definition doAddToCart (p : Page) : Page :=
  if negb (authenticated p) then issue OpenAuthModal p
  else if negb (productReady p) then issue ToastError p
  else if isAddingToCart p then p
  else
    let p := setIsAddingToCart true p in
    if negb (stageReady p) then failed p
    else setInflight (inflight p ++ [AwaitBlob]) (issue ExportPreview p).

(** The list without its [i]-th element, and with its [i]-th element
    replaced. *)
Fixpoint removeAt {A : Type} (i : nat) (l : list A) : list A :=
  match l, i with
  | [], _ => []
  | _ :: l, O => l
  | a :: l, S i => a :: removeAt i l
  end.

Fixpoint replaceAt {A : Type} (i : nat) (a : A) (l : list A) : list A :=
  match l, i with
  | [], _ => []
  | _ :: l, O => a :: l
  | b :: l, S i => b :: replaceAt i a l
  end.

(** The [i]-th suspended invocation resumes: its promise resolved
    ([ok = true]) or rejected. *)
Definition settle (i : nat) (ok : bool) (p : Page) : Page :=
  match nth_error (inflight p) i with
  | None => p
  | Some a =>
      if negb ok then failed (setInflight (removeAt i (inflight p)) p)
      else
        match a with
        | AwaitBlob =>
            setInflight (replaceAt i AwaitUpload (inflight p)) (issue UploadAsset p)
        | AwaitUpload =>
            setInflight (replaceAt i AwaitCartAdd (inflight p)) (issue CartAdd p)
        | AwaitCartAdd =>
            setIsAddingToCart false
              (issue ToastSuccess (setInflight (removeAt i (inflight p)) p))
        end
  end.

Inductive CartEvent : Type :=
| Trigger
| Settle (i : nat) (ok : bool).

Definition cartStep (p : Page) (e : CartEvent) : Page :=
  match e with
  | Trigger => doAddToCart p
  | Settle i ok => settle i ok p
  end.

Definition cartRun (es : list CartEvent) (p : Page) : Page :=
  fold_left cartStep es p.

Definition issued (c : Call) (p : Page) : nat := count_occ Call_eq_dec (calls p) c.

(** A signed-in user on a loaded page with nothing in flight. *)
Definition idle (p : Page) : Prop :=
  authenticated p = true /\ productReady p = true /\ stageReady p = true /\
  isAddingToCart p = false /\ inflight p = [].

(** The three promises of one invocation, each resolving. *)
Definition allResolve : list CartEvent :=
  [Settle 0 true; Settle 0 true; Settle 0 true].

(** The first trigger, then a second one after [k] of the three promises
    of the first have resolved, then the rest of them. *)
Definition twoTriggers (k : nat) : list CartEvent :=
  Trigger :: firstn k allResolve ++ Trigger :: skipn k allResolve.

(** At most one invocation is suspended, and the flag is set exactly
    while one is. *)
Definition guarded (p : Page) : Prop :=
  (isAddingToCart p = false /\ inflight p = []) \/
  (isAddingToCart p = true /\ exists a, inflight p = [a]).

(** A signed-in user on a loaded page, before any click. *)
Definition freshPage : Page := mkPage true true true false [] [].

(** ** The scenarios on IEEE binary64 numbers *)

Module Double.
Local Open Scope float_scope.

(** [Math.min] and [Math.max] on numbers that are not NaN. *)
Definition min (a b : float) : float := if PrimFloat.ltb b a then b else a.
Definition max (a b : float) : float := if PrimFloat.ltb a b then b else a.

Definition clamp (v lo hi : float) : float := max lo (min hi v).

Definition DESIGN_W : float := 520.
Definition DESIGN_H : float := 680.

(** [bgDraw] on an image of size [w] x [h]: [(x, y, width, height)]. *)
Definition bgDraw (w h : float) : float * float * float * float :=
  let scale := min (DESIGN_W / w) (DESIGN_H / h) in
  let width := w * scale in
  let height := h * scale in
  ((DESIGN_W - width) / 2, (DESIGN_H - height) / 2, width, height).

(** [safeZone] for a print area [(left, top, pw, ph)] on that image. *)
Definition safeZone (left top pw ph w h : float)
    : float * float * float * float :=
  let '(bx, by_, bw, bh) := bgDraw w h in
  let sx := bw / w in
  let sy := bh / h in
  (bx + left * sx, by_ + top * sy, pw * sx, ph * sy).
(** [Math.max(12, Math.min(100, item.fontSize * scaleX))]. *)
Definition nextFontSize (fontSize scaleX : float) : float :=
  max 12 (min 100 (fontSize * scaleX)).
End Double.

(** ** Inputs of the scenarios *)

(** The 1000 x 1000 mockup image and the variant whose print area is
    (left 100, top 100, width 800, height 800). *)
Definition img1000 : BgImage := mkBgImage 1000 1000.

Definition variant800 : Variant := mkVariant 1 100 100 800 800.

(** The fit of that image, with its fractions reduced. *)
Definition fit520 : BackgroundFit := mkBackgroundFit 0 80 520 520 (52 # 100).

Definition zone132 : SafeZone := mkSafeZone 52 132 416 416.


(** A text item of fontSize 36 and its node, measured 160 x 36; in
    [textNode4] the handle was pulled to four times the width. *)
Definition text36 : DesignTextItem :=
  mkTextItem "txt_1_a" "Your text" 260 340 0 36 "Roboto" "#ffffff".

Definition textNode4 : Node := mkNode 260 340 160 36 4 4 0.


(** A 240 x 240 image placed inside the safe zone (52, 132, 416, 416). *)
Definition img240 : DesignImageItem :=
  mkImageItem "img_1_a" "https://cdn.example/a.png" 140 220 240 240 0.




(** Two variants, the second with id 0. *)
Definition variant5 : Variant := mkVariant 5 100 100 800 800.
Definition variant0 : Variant := mkVariant 0 150 150 700 700.
Definition product50 : Product := mkProduct (Some [variant5; variant0]).

(** * Further parts of the page *)

(** ** The bound function of the resize handles *)

(** [a < b] on numbers. *)
Definition Qltb (a b : Q) : bool := negb (Qle_bool b a).

(** The box that the transformer hands to [boundBoxFunc]. *)
Record TBox : Type := mkTBox
  { tb_x : Q; tb_y : Q; tb_width : Q; tb_height : Q; tb_rotation : Q }.

Definition tbSetX (v : Q) (b : TBox) : TBox :=
  mkTBox v (tb_y b) (tb_width b) (tb_height b) (tb_rotation b).
Definition tbSetY (v : Q) (b : TBox) : TBox :=
  mkTBox (tb_x b) v (tb_width b) (tb_height b) (tb_rotation b).

Definition tbRect (b : TBox) : Box :=
  mkBox (tb_x b) (tb_y b) (tb_width b) (tb_height b).

(** [boundBoxFunc={(oldBox, newBox) => { ... }}] of the [Transformer]. *)
Definition boundBoxFunc (safeZone : option SafeZone) (oldBox newBox : TBox) : TBox :=
  match safeZone with
  | None => oldBox
  | Some safeZone =>
      let minSize := 20 in
      if Qltb (tb_width newBox) minSize || Qltb (tb_height newBox) minSize
      then oldBox
      else
        let maxX := sz_x safeZone + sz_width safeZone in
        let maxY := sz_y safeZone + sz_height safeZone in
        let next := newBox in
        let next := if Qltb (tb_x next) (sz_x safeZone)
                    then tbSetX (sz_x safeZone) next else next in
        let next := if Qltb (tb_y next) (sz_y safeZone)
                    then tbSetY (sz_y safeZone) next else next in
        let next := if Qltb maxX (tb_x next + tb_width next)
                    then tbSetX (maxX - tb_width next) next else next in
        let next := if Qltb maxY (tb_y next + tb_height next)
                    then tbSetY (maxY - tb_height next) next else next in
        next
  end.

(** ** The size of the stage on the screen *)




(** ** Patches of the text options *)

(** The field of a text item that a patch sets. *)
Inductive TextField : Type := FText | FFill | FFontSize | FFontFamily.

Definition patchField (patch : TextPatch) : TextField :=
  match patch with
  | PatchText _ => FText
  | PatchFill _ => FFill
  | PatchFontSize _ => FFontSize
  | PatchFontFamily _ => FFontFamily
  end.

(** [const selectedObject = useMemo(() => { if (!selectedId) return null;
    return objects.find((o) => o.id === selectedId) ?? null; })] *)
Definition selectedObject (s : Session) : option DesignObject :=
  match truthy (selectedId s) with
  | None => None
  | Some sel => find (fun o => (objId o =? sel)%string) (objects s)
  end.

(** The text options panel is rendered when
    [selectedObject?.type === 'text']. *)
Definition textOptionsShown (s : Session) : bool :=
  match selectedObject s with
  | Some (Text _) => true
  | _ => false
  end.

(** ** What the centring and the text patch do to one object *)

(** The function that [centerHorizontally] maps over the list. *)
Definition centerXOf (safeZone : SafeZone) (sel : string) (it : DesignObject)
    : DesignObject :=
  if negb (objId it =? sel)%string then it
  else match it with
       | Image it =>
           let w := im_width it in
           Image (mkImageItem (im_id it) (im_url it)
                    (sz_x safeZone + (sz_width safeZone - w) / 2)
                    (im_y it) (im_width it) (im_height it) (im_rotation it))
       | Text it =>
           Text (mkTextItem (tx_id it) (tx_text it)
                   (sz_x safeZone + sz_width safeZone / 2)
                   (tx_y it) (tx_rotation it) (tx_fontSize it)
                   (tx_fontFamily it) (tx_fill it))
       end.

(** The function that [centerVertically] maps over the list. *)
Definition centerYOf (safeZone : SafeZone) (sel : string) (it : DesignObject)
    : DesignObject :=
  if negb (objId it =? sel)%string then it
  else match it with
       | Image it =>
           let h := im_height it in
           Image (mkImageItem (im_id it) (im_url it) (im_x it)
                    (sz_y safeZone + (sz_height safeZone - h) / 2)
                    (im_width it) (im_height it) (im_rotation it))
       | Text it =>
           Text (mkTextItem (tx_id it) (tx_text it) (tx_x it)
                   (sz_y safeZone + sz_height safeZone / 2)
                   (tx_rotation it) (tx_fontSize it)
                   (tx_fontFamily it) (tx_fill it))
       end.

(** The function that [updateSelectedText] maps over the list. *)
Definition patchOf (patch : TextPatch) (sel : string) (it : DesignObject)
    : DesignObject :=
  if negb (objId it =? sel)%string then it
  else match it with
       | Image _ => it
       | Text t => Text (applyPatch patch t)
       end.

(** The position, size and rotation of an object, and what else it
    is made of. *)
Definition objX (o : DesignObject) : Q :=
  match o with Image it => im_x it | Text it => tx_x it end.
Definition objY (o : DesignObject) : Q :=
  match o with Image it => im_y it | Text it => tx_y it end.
Definition objRotation (o : DesignObject) : Q :=
  match o with Image it => im_rotation it | Text it => tx_rotation it end.

(** Two objects that differ in [x] at most, and in [y] at most. *)
Definition sameButX (o o' : DesignObject) : Prop :=
  match o, o' with
  | Image a, Image b =>
      im_id a = im_id b /\ im_url a = im_url b /\ im_y a = im_y b /\
      im_width a = im_width b /\ im_height a = im_height b /\
      im_rotation a = im_rotation b
  | Text a, Text b =>
      tx_id a = tx_id b /\ tx_text a = tx_text b /\ tx_y a = tx_y b /\
      tx_rotation a = tx_rotation b /\ tx_fontSize a = tx_fontSize b /\
      tx_fontFamily a = tx_fontFamily b /\ tx_fill a = tx_fill b
  | _, _ => False
  end.

Definition sameButY (o o' : DesignObject) : Prop :=
  match o, o' with
  | Image a, Image b =>
      im_id a = im_id b /\ im_url a = im_url b /\ im_x a = im_x b /\
      im_width a = im_width b /\ im_height a = im_height b /\
      im_rotation a = im_rotation b
  | Text a, Text b =>
      tx_id a = tx_id b /\ tx_text a = tx_text b /\ tx_x a = tx_x b /\
      tx_rotation a = tx_rotation b /\ tx_fontSize a = tx_fontSize b /\
      tx_fontFamily a = tx_fontFamily b /\ tx_fill a = tx_fill b
  | _, _ => False
  end.

(** The point of an object that the centring puts on the middle of the
    safe zone: the middle of an image's rectangle, the point (x, y) of a
    text. *)
Definition midX (o : DesignObject) : Q :=
  match o with Image it => im_x it + im_width it / 2 | Text it => tx_x it end.
Definition midY (o : DesignObject) : Q :=
  match o with Image it => im_y it + im_height it / 2 | Text it => tx_y it end.

(** ** Events as the rendered page produces them *)

(** The font size of a text is in the range of the resize and of the
    slider. *)
Definition fontOk (o : DesignObject) : Prop :=
  match o with
  | Text t => 12 <= tx_fontSize t /\ tx_fontSize t <= 100
  | Image _ => True
  end.

(** The events that the page rendered for [s] can produce: the font size
    slider is an [<input type="range" min={12} max={100}>], and a text that
    is dragged is a text of the list. *)
Definition rendered (s : Session) (e : Event) : Prop :=
  match e with
  | EUpdateSelectedText (PatchFontSize f) => 12 <= f /\ f <= 100
  | ETextDragEnd item _ => In (Text item) (objects s)
  | _ => True
  end.

Fixpoint renderedFrom (s : Session) (es : list Event) : Prop :=
  match es with
  | [] => True
  | e :: es => rendered s e /\ renderedFrom (step s e) es
  end.

(** ** The readings of the clock and of the random numbers *)

(** The kind, the clock value and the random digits that go into the id
    that an event makes, when the event adds an object. *)
Definition reading (e : Event) : option (string * N * string) :=
  match e with
  | EUploaded (Some _) (Done _) now rnd => Some ("img"%string, now, rnd)
  | EAddText (Some _) now rnd => Some ("txt"%string, now, rnd)
  | _ => None
  end.

Fixpoint readings (es : list Event) : list (string * N * string) :=
  match es with
  | [] => []
  | e :: es =>
      match reading e with
      | Some r => r :: readings es
      | None => readings es
      end
  end.

Definition idOf (r : string * N * string) : string :=
  newId (fst (fst r)) (snd (fst r)) (snd r).

(** The ids of [s] are pairwise different and were all made from
    readings of [seen]. *)
Definition distinctFrom (seen : list (string * N * string)) (s : Session) : Prop :=
  NoDup (ids s) /\
  forall id, In id (ids s) ->
    exists r, In r seen /\ isPrefix (fst (fst r)) /\ id = idOf r.

(** ** Counting the calls of add to cart *)

Definition Await_eq_dec (a b : Await) : {a = b} + {a <> b}.
Proof. decide equality. Defined.

(** The number of suspended invocations that wait at [a]. *)
Definition pending (a : Await) (p : Page) : nat :=
  count_occ Await_eq_dec (inflight p) a.

(** The number of triggers among the events. *)
Fixpoint triggers (es : list CartEvent) : nat :=
  match es with
  | [] => O
  | Trigger :: es => S (triggers es)
  | Settle _ _ :: es => triggers es
  end.

(** Every call was preceded by the call that feeds it: an upload by an
    export, a cart-add by an upload, a success message by a cart-add. *)
Definition inOrder (p : Page) : Prop :=
  (issued UploadAsset p + pending AwaitBlob p <= issued ExportPreview p)%nat /\
  (issued CartAdd p + pending AwaitUpload p <= issued UploadAsset p)%nat /\
  (issued ToastSuccess p + pending AwaitCartAdd p <= issued CartAdd p)%nat.

(** ** Placing an order *)

(** The white space that [String.prototype.trim] removes, among the ASCII
    characters: tab, line feed, vertical tab, form feed, carriage return
    and space.  The strings of the model are strings of ASCII
    characters. *)
Definition isSpace (c : ascii) : bool :=
  let n := nat_of_ascii c in
  ((9 <=? n) && (n <=? 13))%nat || (n =? 32)%nat.

Fixpoint trimStart (s : string) : string :=
  match s with
  | EmptyString => EmptyString
  | String c s' => if isSpace c then trimStart s' else s
  end.

Fixpoint trimEnd (s : string) : string :=
  match s with
  | EmptyString => EmptyString
  | String c s' =>
      match trimEnd s' with
      | EmptyString => if isSpace c then EmptyString else String c EmptyString
      | t => String c t
      end
  end.

(** [s.trim()]. *)
Definition trim (s : string) : string := trimEnd (trimStart s).

(** [!s.trim()]. *)
Definition blank (s : string) : bool := (trim s =? "")%string.

(** Some character of [s] is not white space. *)
Fixpoint hasInk (s : string) : bool :=
  match s with
  | EmptyString => false
  | String c s' => negb (isSpace c) || hasInk s'
  end.

(** The [shipping] state. *)
Record Shipping : Type := mkShipping
  { customerName : string; customerPhone : string;
    region : string; address : string }.

(** The calls that the order actions issue; [OCreateOrder] is
    [apiPost('/orders', ...)] with the shipping fields, the total price and
    the quantity and price of its one item. *)
Inductive OrderCall : Type :=
| OOpenAuthModal
| OToastError (msg : string)
| OToastSuccess
| OExportPreview
| OUploadAsset
| OCreateOrder (sh : Shipping) (totalPrice quantity price : Q).

Inductive OrderAwait : Type :=
| OAwaitBlob
| OAwaitUpload
| OAwaitOrder.

(** A suspended invocation of [submitOrderNow]: where it waits, and the
    [shipping] and the price of the variant that its closure holds, which
    are the ones of the render in which the button was pressed. *)
Record OrderTask : Type := mkOrderTask
  { ot_at : OrderAwait; ot_shipping : Shipping; ot_price : Q }.

(** The page as the order actions see it; [o_price] is
    [Number(variant.price ?? 0)]. *)
Record OrderPage : Type := mkOrderPage
  { o_authenticated : bool;
    o_productReady : bool;
    o_stageReady : bool;
    o_price : Q;
    shipping : Shipping;
    isOrdering : bool;
    isShippingOpen : bool;
    o_calls : list OrderCall;
    o_inflight : list OrderTask }.

Definition oIssue (c : OrderCall) (p : OrderPage) : OrderPage :=
  mkOrderPage (o_authenticated p) (o_productReady p) (o_stageReady p) (o_price p)
    (shipping p) (isOrdering p) (isShippingOpen p) (o_calls p ++ [c]) (o_inflight p).

Definition setIsOrdering (b : bool) (p : OrderPage) : OrderPage :=
  mkOrderPage (o_authenticated p) (o_productReady p) (o_stageReady p) (o_price p)
    (shipping p) b (isShippingOpen p) (o_calls p) (o_inflight p).

Definition setIsShippingOpen (b : bool) (p : OrderPage) : OrderPage :=
  mkOrderPage (o_authenticated p) (o_productReady p) (o_stageReady p) (o_price p)
    (shipping p) (isOrdering p) b (o_calls p) (o_inflight p).

Definition setShipping (sh : Shipping) (p : OrderPage) : OrderPage :=
  mkOrderPage (o_authenticated p) (o_productReady p) (o_stageReady p) (o_price p)
    sh (isOrdering p) (isShippingOpen p) (o_calls p) (o_inflight p).

Definition oSetInflight (l : list OrderTask) (p : OrderPage) : OrderPage :=
  mkOrderPage (o_authenticated p) (o_productReady p) (o_stageReady p) (o_price p)
    (shipping p) (isOrdering p) (isShippingOpen p) (o_calls p) l.

(** [openShippingForOrder()]. *)
Definition openShippingForOrder (p : OrderPage) : OrderPage :=
  if negb (o_authenticated p) then oIssue OOpenAuthModal p
  else if negb (o_productReady p) then oIssue (OToastError "Product is not ready") p
  else setIsShippingOpen true p.

(** The [catch] and [finally] blocks of [submitOrderNow]:
    [toast.error(e?.message || 'Failed to create order')]. *)
Definition orderFailed (msg : string) (p : OrderPage) : OrderPage :=
  setIsOrdering false
    (oIssue (OToastError (if (msg =? "")%string then "Failed to create order" else msg)) p).

(** [submitOrderNow()] up to its first suspension. *)
Definition submitOrderNow (p : OrderPage) : OrderPage :=
  if negb (o_productReady p) then oIssue (OToastError "Product is not ready") p
  else if blank (customerName (shipping p)) then oIssue (OToastError "Name is required") p
  else if blank (customerPhone (shipping p)) then oIssue (OToastError "Phone is required") p
  else if blank (region (shipping p)) then oIssue (OToastError "Region is required") p
  else if blank (address (shipping p)) then oIssue (OToastError "Address is required") p
  else if isOrdering p then p
  else
    let p := setIsOrdering true p in
    if negb (o_stageReady p) then orderFailed "Canvas is not ready" p
    else oSetInflight
           (o_inflight p ++ [mkOrderTask OAwaitBlob (shipping p) (o_price p)])
           (oIssue OExportPreview p).

(** The [i]-th suspended invocation resumes: its promise resolved
    ([err = None]) or rejected with a message. *)
Definition settleOrder (i : nat) (err : option string) (p : OrderPage) : OrderPage :=
  match nth_error (o_inflight p) i with
  | None => p
  | Some t =>
      match err with
      | Some msg => orderFailed msg (oSetInflight (removeAt i (o_inflight p)) p)
      | None =>
          match ot_at t with
          | OAwaitBlob =>
              oSetInflight
                (replaceAt i (mkOrderTask OAwaitUpload (ot_shipping t) (ot_price t))
                   (o_inflight p))
                (oIssue OUploadAsset p)
          | OAwaitUpload =>
              let quantity := 1 in
              let price := ot_price t in
              let totalPrice := price * quantity in
              oSetInflight
                (replaceAt i (mkOrderTask OAwaitOrder (ot_shipping t) (ot_price t))
                   (o_inflight p))
                (oIssue (OCreateOrder (ot_shipping t) totalPrice quantity price) p)
          | OAwaitOrder =>
              setIsOrdering false
                (setIsShippingOpen false
                   (oIssue OToastSuccess
                      (oSetInflight (removeAt i (o_inflight p)) p)))
          end
      end
  end.

(** The events of the order: the "Order Now" button (disabled while
    ordering), the "Place order" button (of the open form), the "Cancel"
    button and the backdrop (both without effect while ordering), a change
    of a field of the form, and the answer to a suspended invocation. *)
Inductive OrderEvent : Type :=
| OrderNow
| PlaceOrder
| CloseForm
| EditShipping (sh : Shipping)
| OrderSettle (i : nat) (err : option string).

Definition orderStep (p : OrderPage) (e : OrderEvent) : OrderPage :=
  match e with
  | OrderNow => if isOrdering p then p else openShippingForOrder p
  | PlaceOrder => if isShippingOpen p then submitOrderNow p else p
  | CloseForm => if isOrdering p then p else setIsShippingOpen false p
  | EditShipping sh => if isShippingOpen p then setShipping sh p else p
  | OrderSettle i err => settleOrder i err p
  end.

Definition orderRun (es : list OrderEvent) (p : OrderPage) : OrderPage :=
  fold_left orderStep es p.

(** The shipping fields all have a character that is not white space. *)
Definition filled (sh : Shipping) : Prop :=
  hasInk (customerName sh) = true /\ hasInk (customerPhone sh) = true /\
  hasInk (region sh) = true /\ hasInk (address sh) = true.

(** What holds of every posted order and of every suspended invocation. *)
Definition callOk (price : Q) (c : OrderCall) : Prop :=
  match c with
  | OCreateOrder sh totalPrice quantity pr =>
      filled sh /\ quantity == 1 /\ pr = price /\ totalPrice == price
  | _ => True
  end.

Definition taskOk (price : Q) (t : OrderTask) : Prop :=
  filled (ot_shipping t) /\ ot_price t = price.

Definition orderOk (p : OrderPage) : Prop :=
  Forall (callOk (o_price p)) (o_calls p) /\
  Forall (taskOk (o_price p)) (o_inflight p) /\
  ((isOrdering p = false /\ o_inflight p = []) \/
   (isOrdering p = true /\ isShippingOpen p = true /\
    exists t, o_inflight p = [t])).

(** The page when the designer opens: nothing called, nothing in flight,
    the form closed and empty. *)
Definition orderStart (auth ready stage : bool) (price : Q) : OrderPage :=
  mkOrderPage auth ready stage price (mkShipping "" "" "" "") false false [] [].

(** A filled form, and the same with another address. *)
Definition shippingAli : Shipping :=
  mkShipping "Ali Valiyev" "+998901234567" "Tashkent" "Amir Temur 1".

(** The events of an order placed from the form [sh], whose three
    promises resolve. *)
Definition orderPlaced (sh : Shipping) : list OrderEvent :=
  [OrderNow; EditShipping sh; PlaceOrder;
   OrderSettle 0 None; OrderSettle 0 None; OrderSettle 0 None].

(** ** The sign-in dialog *)

Inductive AuthModalTab : Type := TabLogin | TabRegister.

Section AuthModalState.

(** The continuations that callers hand over as [onAuthed]. *)
Variable K : Type.

(** [type AuthModalOpenOptions]: every field is optional. *)
Record AuthModalOpenOptions : Type := mkOpenOptions
  { opt_tab : option AuthModalTab;
    opt_title : option string;
    opt_description : option string;
    opt_onAuthed : option K }.

(** The five pieces of state of [AuthModalProvider]. *)
Record AuthModal : Type := mkAuthModal
  { m_isOpen : bool;
    m_tab : AuthModalTab;
    m_title : option string;
    m_description : option string;
    m_onAuthed : option K }.

(** The state the provider starts with. *)
Definition modalInit : AuthModal := mkAuthModal false TabLogin None None None.

(** [open(opts?)]: [opts?.tab ?? 'login'], [opts?.title], ... *)
Definition modalOpen (opts : option AuthModalOpenOptions) (m : AuthModal) : AuthModal :=
  mkAuthModal true
    (match opts with
     | Some o => match opt_tab o with Some t => t | None => TabLogin end
     | None => TabLogin
     end)
    (match opts with Some o => opt_title o | None => None end)
    (match opts with Some o => opt_description o | None => None end)
    (match opts with Some o => opt_onAuthed o | None => None end).

(** [close()]. *)
Definition modalClose (m : AuthModal) : AuthModal :=
  mkAuthModal false TabLogin None None None.

(** [setTab(tab)]. *)
Definition modalSetTab (t : AuthModalTab) (m : AuthModal) : AuthModal :=
  mkAuthModal (m_isOpen m) t (m_title m) (m_description m) (m_onAuthed m).

Inductive ModalEvent : Type :=
| MOpen (opts : option AuthModalOpenOptions)
| MClose
| MSetTab (t : AuthModalTab).

Definition modalStep (m : AuthModal) (e : ModalEvent) : AuthModal :=
  match e with
  | MOpen opts => modalOpen opts m
  | MClose => modalClose m
  | MSetTab t => modalSetTab t m
  end.

Definition modalRun (es : list ModalEvent) : AuthModal :=
  fold_left modalStep es modalInit.

(** The continuation of the last [open] that no [close] has followed. *)
Fixpoint pendingFrom (held : option K) (es : list ModalEvent) : option K :=
  match es with
  | [] => held
  | MOpen (Some o) :: es => pendingFrom (opt_onAuthed o) es
  | MOpen None :: es => pendingFrom None es
  | MClose :: es => pendingFrom None es
  | MSetTab _ :: es => pendingFrom held es
  end.

End AuthModalState.

Arguments mkOpenOptions {K} _ _ _ _.
Arguments opt_tab {K} _.
Arguments opt_title {K} _.
Arguments opt_description {K} _.
Arguments opt_onAuthed {K} _.
Arguments mkAuthModal {K} _ _ _ _ _.
Arguments m_isOpen {K} _.
Arguments m_tab {K} _.
Arguments m_title {K} _.
Arguments m_description {K} _.
Arguments m_onAuthed {K} _.
Arguments modalInit {K}.
Arguments modalOpen {K} _ _.
Arguments modalClose {K} _.
Arguments modalSetTab {K} _ _.
Arguments MOpen {K} _.
Arguments MClose {K}.
Arguments MSetTab {K} _.
Arguments modalStep {K} _ _.
Arguments modalRun {K} _.
Arguments pendingFrom {K} _ _.

(** ** Errors of the API client *)

(** [body?.message]: missing, a string, or an array of strings. *)
Inductive BodyMessage : Type :=
| MsgMissing
| MsgString (s : string)
| MsgArray (l : list string).

(** [class ApiClientError]: the message and the status (the body is
    carried along unchanged and is left out). *)
Record ApiClientError : Type := mkApiClientError
  { ace_message : string; ace_status : option Z }.

(** What a failed request throws: an error of the HTTP library, with the
    status and the body of the response when there is one and with its
    own message, or an [ApiClientError], or anything else. *)
Inductive Failure : Type :=
| AxiosError (status : option Z) (body : option BodyMessage) (message : string)
| ClientError (e : ApiClientError)
| OtherError.

(** [a || b] on strings: the empty string is falsy. *)
Definition orElse (a b : string) : string := if (a =? "")%string then b else a.

(** [normalizeError(err)]; [msgFromBody] is [undefined], which [||] skips
    like the empty string, when the body has no message. *)
Definition normalizeError (err : Failure) : ApiClientError :=
  match err with
  | AxiosError status body message =>
      let msgFromBody :=
        match body with
        | Some (MsgString s) => s
        | Some (MsgArray l) => String.concat ", " l
        | _ => ""%string
        end in
      mkApiClientError (orElse msgFromBody (orElse message "Request failed")) status
  | _ => mkApiClientError "Unknown error" None
  end.

(** What [apiGet], [apiPost], [apiPatch] and [apiDelete] throw when the
    request fails with [err]: the response interceptor of [apiClient]
    rejects with [normalizeError(err)], and the [catch] of the wrapper
    throws [normalizeError] of that. *)
Definition apiThrows (err : Failure) : ApiClientError :=
  normalizeError (ClientError (normalizeError err)).

(** ** From the catalogue to the designer *)

(** [pickDefaultVariant(product)] of the catalogue. *)
Definition pickDefaultVariant (product : Product) : option Variant :=
  let variants := variantsOf product in
  match variants with
  | [] => None
  | first :: _ => Some first
  end.

(** The variantId that the "Design" button of a card puts in the address
    of the designer: [variant?.id ? `?variantId=${variant.id}` : ''].  The
    designer reads the number back with [Number]. *)
Definition designLinkVariantId (variant : option Variant) : option Z :=
  match variant with
  | Some v => if (v_id v =? 0)%Z then None else Some (v_id v)
  | None => None
  end.

(** ** Refreshing the access token *)

(** A request as the response interceptor sees its config: [rq_id] tells
    the requests apart. *)
Record Request : Type := mkRequest
  { rq_id : nat; rq_url : string; rq_skipAuthRefresh : bool }.

(** [s.includes(t)]. *)
Fixpoint includes (s t : string) : bool :=
  String.prefix t s ||
  match s with
  | EmptyString => false
  | String _ s' => includes s' t
  end.

(** The 401 responses that the interceptor answers with a refresh: not
    those of a request with [skipAuthRefresh], nor of the login and the
    registration. *)
Definition refreshable (r : Request) : bool :=
  negb (rq_skipAuthRefresh r) &&
  negb (includes (rq_url r) "/auth/login") &&
  negb (includes (rq_url r) "/auth/register").

(** What the interceptor does with a request that got a 401: it rejects
    it, or sends it again with a new token; and the call of the refresh
    end point. *)
Inductive ClientAction : Type :=
| ARefresh (refreshToken : string)
| ARetry (r : Request) (token : string)
| AReject (r : Request).

(** Where the invocation that refreshes is suspended: at the call of the
    refresh end point, at the retry of its request, or, when that retry
    got a 401 in its turn, at the queue. *)
Inductive RefreshStage : Type :=
| WaitRefresh
| WaitRetry
| WaitQueue.

(** The result of [client.post('/auth/refresh', ...)]: a response with
    [res.data?.accessToken], or a failure. *)
Inductive RefreshResult : Type :=
| RefreshOk (accessToken : option string)
| RefreshFailed.

(** The module state [isRefreshing] and [refreshQueue], the two cookies,
    the actions taken so far, and the invocation that refreshes. *)
Record Client : Type := mkClient
  { isRefreshing : bool;
    refreshQueue : list Request;
    accessCookie : option string;
    refreshCookie : option string;
    actions : list ClientAction;
    refresher : option (Request * RefreshStage) }.

Definition clientInit (access refresh : option string) : Client :=
  mkClient false [] access refresh [] None.

(** [resolveRefreshQueue(token)]: every callback of the queue rejects its
    request when [!token] and sends it again otherwise. *)
Definition resolveRefreshQueue (token : option string) (c : Client) : Client :=
  mkClient (isRefreshing c) []
    (accessCookie c) (refreshCookie c)
    (actions c ++
       map (fun r => match truthy token with
                     | None => AReject r
                     | Some t => ARetry r t
                     end) (refreshQueue c))
    (refresher c).

Definition act (a : ClientAction) (c : Client) : Client :=
  mkClient (isRefreshing c) (refreshQueue c) (accessCookie c) (refreshCookie c)
    (actions c ++ [a]) (refresher c).

Definition setRefreshing (b : bool) (who : option (Request * RefreshStage))
    (c : Client) : Client :=
  mkClient b (refreshQueue c) (accessCookie c) (refreshCookie c) (actions c) who.

Definition setCookies (access refresh : option string) (c : Client) : Client :=
  mkClient (isRefreshing c) (refreshQueue c) access refresh (actions c) (refresher c).

(** The error handler of the response interceptor for a 401 of [r], up to
    its first suspension. *)
Definition on401 (r : Request) (c : Client) : Client :=
  if negb (refreshable r) then act (AReject r) c
  else if isRefreshing c then
    mkClient true (refreshQueue c ++ [r]) (accessCookie c) (refreshCookie c)
      (actions c)
      (match refresher c with
       | Some (r', WaitRetry) =>
           if (rq_id r' =? rq_id r)%nat then Some (r', WaitQueue)
           else Some (r', WaitRetry)
       | who => who
       end)
  else
    match truthy (refreshCookie c) with
    | None =>
        (* [tryRefreshAccessToken] returns null without a request *)
        setRefreshing false None (act (AReject r) (resolveRefreshQueue None c))
    | Some refreshToken =>
        setRefreshing true (Some (r, WaitRefresh)) (act (ARefresh refreshToken) c)
    end.

(** The refresh end point has answered. *)
Definition onRefreshAnswer (res : RefreshResult) (c : Client) : Client :=
  match refresher c with
  | Some (r, WaitRefresh) =>
      let newToken :=
        match res with
        | RefreshOk t => truthy t
        | RefreshFailed => None
        end in
      let c :=
        match res, newToken with
        | RefreshFailed, _ => setCookies None None c       (* [clearAuthTokens()] *)
        | _, Some t => setCookies (Some t) (refreshCookie c) c
        | _, None => c
        end in
      let c := resolveRefreshQueue newToken c in
      match newToken with
      | None => setRefreshing false None (act (AReject r) c)
      | Some t => setRefreshing true (Some (r, WaitRetry)) (act (ARetry r t) c)
      end
  | _ => c
  end.

(** The retry of the refreshing request has settled, with a response or
    with an error that is not a refreshable 401. *)
Definition onRetryAnswer (c : Client) : Client :=
  match refresher c with
  | Some (_, WaitRetry) => setRefreshing false None c
  | _ => c
  end.

Inductive ClientEvent : Type :=
| Got401 (r : Request)
| RefreshAnswer (res : RefreshResult)
| RetryAnswer.

Definition clientStep (c : Client) (e : ClientEvent) : Client :=
  match e with
  | Got401 r => on401 r c
  | RefreshAnswer res => onRefreshAnswer res c
  | RetryAnswer => onRetryAnswer c
  end.

Definition clientRun (es : list ClientEvent) (c : Client) : Client :=
  fold_left clientStep es c.

(** Counting: the 401 responses of the request [id] among the events,
    the answers (retry or rejection) that it got, its entries in the queue,
    the calls of the refresh end point and its answers. *)
Fixpoint got401s (id : nat) (es : list ClientEvent) : nat :=
  match es with
  | [] => O
  | Got401 r :: es => (if (rq_id r =? id)%nat then 1 else 0) + got401s id es
  | _ :: es => got401s id es
  end.

Fixpoint refreshAnswers (es : list ClientEvent) : nat :=
  match es with
  | [] => O
  | RefreshAnswer _ :: es => S (refreshAnswers es)
  | _ :: es => refreshAnswers es
  end.

Definition answersTo (id : nat) (l : list ClientAction) : nat :=
  List.length (filter (fun a => match a with
                                | ARetry r _ | AReject r => (rq_id r =? id)%nat
                                | ARefresh _ => false
                                end) l).

Definition queuedOf (id : nat) (l : list Request) : nat :=
  List.length (filter (fun r => (rq_id r =? id)%nat) l).

Definition refreshCalls (l : list ClientAction) : nat :=
  List.length (filter (fun a => match a with ARefresh _ => true | _ => false end) l).

(** 1 when the invocation that refreshes is the one of the request [id]
    and still waits for the refresh end point. *)
Definition refreshingFor (id : nat) (c : Client) : nat :=
  match refresher c with
  | Some (r, WaitRefresh) => if (rq_id r =? id)%nat then 1 else 0
  | _ => O
  end.

Definition awaitingRefresh (c : Client) : nat :=
  match refresher c with
  | Some (_, WaitRefresh) => 1
  | _ => O
  end.

(** [isRefreshing] is set exactly while an invocation refreshes. *)
Definition refreshFlag (c : Client) : Prop :=
  isRefreshing c = true <-> refresher c <> None.

(** * Theorems *)

(** ** Tactics *)

(** Name every [Qmin] and [Qmax] and keep only its two defining cases, so
    that linear arithmetic finishes. *)
Ltac minmax_cases :=
  repeat match goal with
  | |- context [Qmin ?a ?b] =>
      let H := fresh "Hmin" in let m := fresh "m" in
      pose proof (Q.min_spec a b) as H; set (m := Qmin a b) in *; clearbody m
  | H : context [Qmin ?a ?b] |- _ =>
      let H := fresh "Hmin" in let m := fresh "m" in
      pose proof (Q.min_spec a b) as H; set (m := Qmin a b) in *; clearbody m
  | |- context [Qmax ?a ?b] =>
      let H := fresh "Hmax" in let m := fresh "m" in
      pose proof (Q.max_spec a b) as H; set (m := Qmax a b) in *; clearbody m
  | H : context [Qmax ?a ?b] |- _ =>
      let H := fresh "Hmax" in let m := fresh "m" in
      pose proof (Q.max_spec a b) as H; set (m := Qmax a b) in *; clearbody m
  end;
  repeat match goal with
  | H : _ /\ _ \/ _ /\ _ |- _ => destruct H as [[? ?] | [? ?]]
  end.

(** Split the conjunctions of the goal, and nothing else. *)
Ltac conjs := repeat match goal with |- _ /\ _ => split end.

(** Linear arithmetic with the halves [_ / 2] written as products. *)
Ltac qlinear :=
  unfold Qdiv in *; change (/ 2) with (1 # 2) in *; lra.

(** Either nothing is in flight and the flag is down, or one invocation
    is and the flag is up. *)
Ltac guard_case :=
  first [ left; split; reflexivity
        | right; split; [ reflexivity | eexists; reflexivity ] ].

Lemma insideb_spec (b : Box) (z : SafeZone) : insideb b z = true <-> inside b z.
Proof.
  unfold insideb, inside.
  rewrite !andb_true_iff, !Qle_bool_iff. tauto.
Qed.




(** The 1000 x 1000 mockup is letterboxed at (0, 80) with size 520 x 520. *)
Lemma bgDraw_1000 :
  exists fit, bgDraw (Some img1000) = Some fit /\
    bg_width fit == 520 /\ bg_height fit == 520 /\
    bg_x fit == 0 /\ bg_y fit == 80 /\ bg_scale fit == 52 # 100.
Proof.
  eexists. split; [ reflexivity | ].
  repeat split; vm_compute; reflexivity.
Qed.

(** C2, as the code computes it: for every image the fit has
    scale = min(520/w, 680/h), the scaled size, and is centred in the
    520 x 680 canvas; on a 1000 x 1000 image it is 520 x 520 at x = 0 and
    y = 80 = (680 - 520) / 2; on binary64 numbers the same values come out
    exactly. *)
Theorem C2_fitBackground_scenario :
  (forall img,
     0 < bgi_width img -> 0 < bgi_height img ->
     exists fit, bgDraw (Some img) = Some fit /\
     bg_scale fit = Qmin (DESIGN_W / bgi_width img) (DESIGN_H / bgi_height img) /\
     bg_width fit = bgi_width img * bg_scale fit /\
     bg_height fit = bgi_height img * bg_scale fit /\
     bg_x fit + bg_width fit / 2 == DESIGN_W / 2 /\
     bg_y fit + bg_height fit / 2 == DESIGN_H / 2) /\
  (exists fit, bgDraw (Some img1000) = Some fit /\
     bg_width fit == 520 /\ bg_height fit == 520 /\
     bg_x fit == 0 /\ bg_y fit == 80) /\
  Double.bgDraw 1000 1000 = (0, 80, 520, 520)%float.
Proof.
  split; [ | split ].
  - intros img _ _. eexists. split; [ reflexivity | ]. cbn.
    conjs; try reflexivity; field.
  - destruct bgDraw_1000 as (fit & E & W & H & X & Y & _).
    exists fit. auto.
  - vm_compute. reflexivity.
Qed.

Lemma C2_fitBackground_scenario_witness :
  0 < bgi_width img1000 /\ 0 < bgi_height img1000 /\
  exists fit, bgDraw (Some img1000) = Some fit /\
    bg_scale fit = Qmin (DESIGN_W / bgi_width img1000) (DESIGN_H / bgi_height img1000) /\
    bg_width fit = bgi_width img1000 * bg_scale fit /\
    bg_height fit = bgi_height img1000 * bg_scale fit /\
    bg_x fit + bg_width fit / 2 == DESIGN_W / 2 /\
    bg_y fit + bg_height fit / 2 == DESIGN_H / 2.
Proof.
  assert (Hw : 0 < bgi_width img1000) by reflexivity.
  assert (Hh : 0 < bgi_height img1000) by reflexivity.
  split; [ exact Hw | split; [ exact Hh | ] ].
  exact (proj1 C2_fitBackground_scenario img1000 Hw Hh).
Defined.

(** C2 as stated fails: the fit of the 1000 x 1000 image does not have
    y = 85. *)
Lemma C2_fitBackground_y85_false :
  ~ (exists fit, bgDraw (Some img1000) = Some fit /\
       bg_width fit == 520 /\ bg_height fit == 520 /\
       bg_x fit == 0 /\ bg_y fit == 85).
Proof.
  intros (fit & E & _ & _ & _ & Y).
  injection E as <-. vm_compute in Y. discriminate Y.
Qed.

(** ** Arithmetic of [clamp], [Qmin] and [Qmax] *)


Lemma clamp_id (v lo hi : Q) : lo <= v -> v <= hi -> clamp v lo hi == v.
Proof. unfold clamp. intros H1 H2. minmax_cases; lra. Qed.

(** ** The safe zone of the scenario *)

(** C3, as the code computes it: the safe zone is the print area scaled
    by sx = fit.width / image.width and sy = fit.height / image.height and
    moved by the fit's origin; for the print area (100, 100, 800, 800) of a
    1000 x 1000 mockup it is x = 52, y = 132, width = 416, height = 416,
    exactly so in rational and in binary64 arithmetic. *)
Theorem C3_safeZone_scenario :
  (forall v bg img,
     0 < bgi_width img -> 0 < bgi_height img ->
     exists z,
     safeZone (Some v) (Some bg) (Some img) = Some z /\
     sz_x z = bg_x bg + printAreaLeft v * (bg_width bg / bgi_width img) /\
     sz_y z = bg_y bg + printAreaTop v * (bg_height bg / bgi_height img) /\
     sz_width z = printAreaWidth v * (bg_width bg / bgi_width img) /\
     sz_height z = printAreaHeight v * (bg_height bg / bgi_height img)) /\
  (exists z, safeZoneOf (Some variant800) (Some img1000) = Some z /\
     sz_x z == 52 /\ sz_y z == 132 /\ sz_width z == 416 /\ sz_height z == 416) /\
  Double.safeZone 100 100 800 800 1000 1000 = (52, 132, 416, 416)%float.
Proof.
  split; [ | split ].
  - intros v bg img _ _. eexists. split; [ reflexivity | ]. cbn. auto.
  - eexists. split; [ reflexivity | ].
    repeat split; vm_compute; reflexivity.
  - vm_compute. reflexivity.
Qed.

Lemma C3_safeZone_scenario_witness :
  0 < bgi_width img1000 /\ 0 < bgi_height img1000 /\
  exists z,
    safeZone (Some variant800) (Some fit520) (Some img1000) = Some z /\
    sz_x z = bg_x fit520 + printAreaLeft variant800 * (bg_width fit520 / bgi_width img1000) /\
    sz_y z = bg_y fit520 + printAreaTop variant800 * (bg_height fit520 / bgi_height img1000) /\
    sz_width z = printAreaWidth variant800 * (bg_width fit520 / bgi_width img1000) /\
    sz_height z = printAreaHeight variant800 * (bg_height fit520 / bgi_height img1000).
Proof.
  assert (Hw : 0 < bgi_width img1000) by reflexivity.
  assert (Hh : 0 < bgi_height img1000) by reflexivity.
  split; [ exact Hw | split; [ exact Hh | ] ].
  exact (proj1 C3_safeZone_scenario variant800 fit520 img1000 Hw Hh).
Defined.

(** C3 as stated fails: the safe zone of the scenario is not within half
    a unit, nor within four units, of y = 137. *)
Lemma C3_safeZone_y137_false :
  ~ (exists z, safeZoneOf (Some variant800) (Some img1000) = Some z /\
       approx (sz_x z) 52 /\ approx (sz_y z) 137 /\
       approx (sz_width z) 416 /\ approx (sz_height z) 416) /\
  (exists z, safeZoneOf (Some variant800) (Some img1000) = Some z /\
       Qabs (sz_y z - 137) == 5).
Proof.
  split.
  - intros (z & E & _ & Y & _).
    injection E as <-. vm_compute in Y. discriminate Y.
  - eexists. split; [ reflexivity | ]. vm_compute. reflexivity.
Qed.

(** ** Dragging *)

Section Dragging.

(** The safe zone of the component while the gesture lasts. *)
Variable sz : SafeZone.






End Dragging.




(** ** Resizing a text item *)

(** C5: when the resize of a text item completes, the committed fontSize
    is clamp(fontSize * scaleX, 12, 100), the node's scale is back to
    (1, 1), and position and rotation are the node's; from fontSize 36
    with scaleX = 4 the committed fontSize is 100, not 144. *)
Theorem C5_text_resize_fontSize :
  (forall item node,
     let r := text_onTransformEnd item node in
     tx_fontSize (snd r) = clamp (tx_fontSize item * n_scaleX node) 12 100 /\
     n_scaleX (fst r) = 1 /\ n_scaleY (fst r) = 1 /\
     tx_x (snd r) = n_x node /\ tx_y (snd r) = n_y node /\
     tx_rotation (snd r) = n_rotation node /\
     tx_id (snd r) = tx_id item /\ tx_text (snd r) = tx_text item) /\
  (tx_fontSize (snd (text_onTransformEnd text36 textNode4)) = 100 /\
   ~ tx_fontSize (snd (text_onTransformEnd text36 textNode4)) == 144 /\
   tx_fontSize text36 * n_scaleX textNode4 == 144) /\
  Double.nextFontSize 36 4 = 100%float.
Proof.
  split; [ | split ].
  - intros item node. cbn. repeat split.
  - split; [ vm_compute; reflexivity | split ].
    + vm_compute. discriminate.
    + vm_compute. reflexivity.
  - vm_compute. reflexivity.
Qed.

(** ** Drag and resize completions *)

Lemma inside_ext (b b' : Box) (sz : SafeZone) :
  b_x b == b_x b' -> b_y b == b_y b' ->
  b_width b == b_width b' -> b_height b == b_height b' ->
  inside b' sz -> inside b sz.
Proof.
  unfold inside. intros Hx Hy Hw Hh (H1 & H2 & H3 & H4).
  conjs; lra.
Qed.

(** At rotation 0 the drawn box of an image is its rectangle. *)
Lemma imageBox_unrotated (item : DesignImageItem) :
  im_rotation item == 0 -> 0 <= im_width item -> 0 <= im_height item ->
  exists b, imageBox item = Some b /\
    b_x b == im_x item /\ b_y b == im_y item /\
    b_width b == im_width item /\ b_height b == im_height item.
Proof.
  intros Hr Hw Hh. unfold imageBox, rotationDir.
  apply Qeq_bool_iff in Hr. rewrite Hr.
  eexists. split; [ reflexivity | ].
  unfold clientRect, Qmin4, Qmax4. cbn [b_x b_y b_width b_height].
  conjs; minmax_cases; lra.
Qed.



Lemma text_resize_fontSize_range (item : DesignTextItem) (node : Node) :
  12 <= tx_fontSize (snd (text_onTransformEnd item node)) /\
  tx_fontSize (snd (text_onTransformEnd item node)) <= 100.
Proof.
  cbn. split.
  - apply Q.le_max_l.
  - apply Q.max_lub; [ lra | apply Q.le_min_l ].
Qed.




(** ** The uploaded image *)

(** C9: the image made by an upload is a square of side
    min(240, safeZone.width), centred in the safe zone in both axes, with
    no clamp of its height against safeZone.height; its rectangle lies
    within the safe zone if and only if
    min(240, safeZone.width) <= safeZone.height. *)
Theorem C9_upload_initial_image (sz : SafeZone) (url : string) (now : N)
    (rnd : string) (s : Session) :
  exists it,
    onUploadFileSelected (Some sz) (Done url) now rnd s
    = Done (mkSession (objects s ++ [Image it]) (Some (im_id it))) /\
    im_width it = Qmin 240 (sz_width sz) /\
    im_height it = Qmin 240 (sz_width sz) /\
    im_rotation it = 0 /\
    im_x it + im_width it / 2 == sz_x sz + sz_width sz / 2 /\
    im_y it + im_height it / 2 == sz_y sz + sz_height sz / 2 /\
    (inside (imageRect it) sz <-> Qmin 240 (sz_width sz) <= sz_height sz) /\
    (0 <= sz_width sz ->
     exists b, imageBox it = Some b /\
       (inside b sz <-> Qmin 240 (sz_width sz) <= sz_height sz)).
Proof.
  set (it := mkImageItem (newId "img" now rnd) url
               (sz_x sz + (sz_width sz - Qmin 240 (sz_width sz)) / 2)
               (sz_y sz + (sz_height sz - Qmin 240 (sz_width sz)) / 2)
               (Qmin 240 (sz_width sz)) (Qmin 240 (sz_width sz)) 0).
  exists it.
  assert (R : inside (imageRect it) sz <-> Qmin 240 (sz_width sz) <= sz_height sz).
  { unfold inside, imageRect, it. cbn. split.
    - intros (_ & H & _ & _). minmax_cases; qlinear.
    - intros Hle. minmax_cases; conjs; qlinear. }
  split; [ reflexivity | ].
  split; [ reflexivity | ].
  split; [ reflexivity | ].
  split; [ reflexivity | ].
  split; [ unfold it; cbn; field | ].
  split; [ unfold it; cbn; field | ].
  split; [ exact R | ].
  intros Hw.
  destruct (imageBox_unrotated it) as (b & Eb & Bx & By & Bw & Bh).
  - reflexivity.
  - unfold it. cbn. minmax_cases; lra.
  - unfold it. cbn. minmax_cases; lra.
  - exists b. split; [ exact Eb | ]. rewrite <- R.
    split; apply inside_ext; cbn; try assumption; symmetry; assumption.
Qed.

Lemma C9_upload_initial_image_witness :
  exists it,
    onUploadFileSelected (Some zone132) (Done "https://cdn.example/a.png"%string)
      1700000000000 "8f3a1c" emptySession
    = Done (mkSession [Image it] (Some (im_id it))) /\
    exists b, imageBox it = Some b /\
      (inside b zone132 <-> Qmin 240 (sz_width zone132) <= sz_height zone132).
Proof.
  destruct (C9_upload_initial_image zone132 "https://cdn.example/a.png"%string
              1700000000000%N "8f3a1c"%string emptySession)
    as (it & E & _ & _ & _ & _ & _ & _ & Hb).
  exists it. split; [ exact E | ].
  apply Hb. apply Qle_bool_imp_le. reflexivity.
Defined.

(** ** Choosing the variant *)

Lemma find_none_iff (id : Z) (l : list Variant) :
  find (fun v => (v_id v =? id)%Z) l = None <->
  forall v, In v l -> v_id v <> id.
Proof.
  split.
  - intros H v Hin E.
    pose proof (find_none _ _ H v Hin) as F. cbn in F.
    apply Z.eqb_neq in F. contradiction.
  - intros H. induction l as [ | a l IH ]; [ reflexivity | ].
    cbn. destruct (Z.eqb_spec (v_id a) id) as [E | _].
    + exfalso. exact (H a (or_introl eq_refl) E).
    + apply IH. intros v Hin. apply H. right. exact Hin.
Qed.

(** C10, as the code does it: the result is none exactly when the list
    of variants is empty (or missing); without a variantId, with
    variantId 0, or with a variantId that no variant carries, it is the
    first variant; with a variantId other than 0 that some variant
    carries, it is the first variant of the list with that id. *)
Theorem C10_pickVariant (product : Product) (variantId : option Z) :
  (pickVariant product variantId = None <-> variantsOf product = []) /\
  (forall first rest,
     variantsOf product = first :: rest ->
     variantId = None \/ variantId = Some 0%Z \/
     (exists id, variantId = Some id /\
                 forall v, In v (variantsOf product) -> v_id v <> id) ->
     pickVariant product variantId = Some first) /\
  (forall id v,
     variantId = Some id -> id <> 0%Z ->
     In v (variantsOf product) -> v_id v = id ->
     exists v', pickVariant product variantId = Some v' /\
       In v' (variantsOf product) /\ v_id v' = id /\
       find (fun v => (v_id v =? id)%Z) (variantsOf product) = Some v').
Proof.
  unfold pickVariant. fold (variantsOf product).
  destruct (variantsOf product) as [ | first rest ] eqn:Ev.
  - split; [ tauto | ]. split.
    + intros first rest E. discriminate E.
    + intros id v _ _ [].
  - split; [ | split ].
    + split; [ | discriminate ].
      destruct variantId as [ id | ]; [ | discriminate ].
      destruct (id =? 0)%Z; [ discriminate | ].
      destruct (find _ _); discriminate.
    + intros first' rest' E. injection E as <- <-.
      intros [-> | [-> | (id & -> & Hno)]]; try reflexivity.
      destruct (id =? 0)%Z; [ reflexivity | ].
      apply find_none_iff in Hno. rewrite Hno. reflexivity.
    + intros id v -> Hid Hin Hv.
      destruct (Z.eqb_spec id 0) as [E | _]; [ contradiction | ].
      destruct (find (fun v0 => (v_id v0 =? id)%Z) (first :: rest)) as [ v' | ] eqn:F.
      * exists v'. split; [ reflexivity | ].
        destruct (find_some _ _ F) as [Hin' Hid'].
        apply Z.eqb_eq in Hid'. auto.
      * exfalso. exact (proj1 (find_none_iff id _) F v Hin Hv).
Qed.

Lemma C10_pickVariant_witness :
  exists v', pickVariant product50 (Some 5%Z) = Some v' /\
    In v' (variantsOf product50) /\ v_id v' = 5%Z /\
    find (fun v => (v_id v =? 5)%Z) (variantsOf product50) = Some v'.
Proof.
  refine (proj2 (proj2 (C10_pickVariant product50 (Some 5%Z))) 5%Z variant5
            eq_refl _ _ eq_refl).
  - discriminate.
  - left. reflexivity.
Defined.

(** C10 as stated fails: variantId 0 is taken as no variantId; the
    product has a variant of id 0, and the first variant, of id 5, is
    returned. *)
Lemma C10_variant_zero_not_returned :
  In variant0 (variantsOf product50) /\ v_id variant0 = 0%Z /\
  pickVariant product50 (Some 0%Z) = Some variant5 /\
  v_id variant5 <> 0%Z.
Proof.
  split; [ right; left; reflexivity | ].
  split; [ reflexivity | ].
  split; [ reflexivity | discriminate ].
Qed.

(** ** Selection and deletion *)

Lemma map_keeps_ids (f : DesignObject -> DesignObject) (l : list DesignObject) :
  (forall it, objId (f it) = objId it) -> map objId (map f l) = map objId l.
Proof.
  intros H. rewrite map_map. apply map_ext. exact H.
Qed.

Lemma onChange_ids (itemId : string) (next : DesignObject) (s : Session) :
  objId next = itemId -> ids (onChange itemId next s) = ids s.
Proof.
  intros H. unfold ids, onChange. cbn.
  rewrite map_map. apply map_ext. intros it.
  destruct (String.eqb_spec (objId it) itemId) as [E | _]; congruence.
Qed.

Lemma centerHorizontally_ids (sz : option SafeZone) (s : Session) :
  ids (centerHorizontally sz s) = ids s /\
  selectedId (centerHorizontally sz s) = selectedId s.
Proof.
  unfold centerHorizontally.
  destruct sz as [ sz | ]; [ | split; reflexivity ].
  destruct (truthy (selectedId s)) as [ sel | ]; [ | split; reflexivity ].
  split; [ | reflexivity ].
  apply map_keeps_ids. intros it.
  destruct (negb (objId it =? sel)%string); [ reflexivity | ].
  destruct it; reflexivity.
Qed.

Lemma centerVertically_ids (sz : option SafeZone) (s : Session) :
  ids (centerVertically sz s) = ids s /\
  selectedId (centerVertically sz s) = selectedId s.
Proof.
  unfold centerVertically.
  destruct sz as [ sz | ]; [ | split; reflexivity ].
  destruct (truthy (selectedId s)) as [ sel | ]; [ | split; reflexivity ].
  split; [ | reflexivity ].
  apply map_keeps_ids. intros it.
  destruct (negb (objId it =? sel)%string); [ reflexivity | ].
  destruct it; reflexivity.
Qed.

Lemma updateSelectedText_ids (patch : TextPatch) (s : Session) :
  ids (updateSelectedText patch s) = ids s /\
  selectedId (updateSelectedText patch s) = selectedId s.
Proof.
  unfold updateSelectedText.
  destruct (truthy (selectedId s)) as [ sel | ]; [ | split; reflexivity ].
  split; [ | reflexivity ].
  apply map_keeps_ids. intros it.
  destruct (negb (objId it =? sel)%string); [ reflexivity | ].
  destruct it as [ it | it ]; [ reflexivity | ].
  destruct patch; reflexivity.
Qed.

Lemma truthy_some (sel : option string) (id : string) :
  truthy sel = Some id <-> sel = Some id /\ id <> ""%string.
Proof.
  unfold truthy. destruct sel as [ id' | ].
  - destruct (String.eqb_spec id' "") as [E | N].
    + split; [ discriminate | ]. intros [H1 H2]. congruence.
    + split.
      * intros H. injection H as <-. auto.
      * intros [H _]. exact H.
  - split; [ discriminate | ]. intros [H _]. discriminate H.
Qed.

Lemma deleteSelected_ids (s : Session) (sel : string) :
  truthy (selectedId s) = Some sel ->
  selectedId (deleteSelected s) = None /\
  forall id, In id (ids (deleteSelected s)) <-> In id (ids s) /\ id <> sel.
Proof.
  intros H. unfold deleteSelected, ids. rewrite H. cbn.
  split; [ reflexivity | ]. intros id.
  rewrite !in_map_iff. split.
  - intros (o & <- & Hin). apply filter_In in Hin. destruct Hin as [Hin Hb].
    split; [ exists o; auto | ].
    destruct (String.eqb_spec (objId o) sel); [ discriminate Hb | assumption ].
  - intros [(o & <- & Hin) Hne]. exists o. split; [ reflexivity | ].
    apply filter_In. split; [ exact Hin | ].
    destruct (String.eqb_spec (objId o) sel); [ contradiction | reflexivity ].
Qed.

Lemma newId_nonempty (prefix : string) (now : N) (rnd : string) :
  newId prefix now rnd <> ""%string.
Proof.
  unfold newId. destruct prefix; cbn; discriminate.
Qed.

Lemma ids_app (l : list DesignObject) (o : DesignObject) (sel : option string) :
  ids (mkSession (l ++ [o]) sel) = map objId l ++ [objId o].
Proof. unfold ids. cbn. apply map_app. Qed.

(** Every event is of one of the three kinds. *)
Lemma step_effect (s : Session) (e : Event) : Effect s (step s e).
Proof.
  destruct e as [ osz asset now rnd | osz now rnd | id | | | osz | osz | patch
                | item node | sz item node | item node | item node ];
    cbn [step].
  - unfold onUploadFileSelected.
    destruct osz as [ sz | ]; [ | apply Kept; auto ].
    destruct asset as [ url | msg ]; [ | apply Kept; auto ].
    apply Added with "img"%string now rnd;
      [ left; reflexivity | apply ids_app | reflexivity ].
  - unfold addText. destruct osz as [ sz | ]; [ | apply Kept; auto ].
    apply Added with "txt"%string now rnd;
      [ right; reflexivity | apply ids_app | reflexivity ].
  - unfold select. destruct (existsb _ _) eqn:Ex; [ | apply Kept; auto ].
    apply Kept; [ reflexivity | ]. right. right. exists id.
    split; [ reflexivity | ].
    apply existsb_exists in Ex. destruct Ex as (o & Hin & Eo).
    apply String.eqb_eq in Eo. subst id. unfold ids. apply in_map. exact Hin.
  - apply Kept; auto.
  - destruct (truthy (selectedId s)) as [ sel | ] eqn:T.
    + destruct (deleteSelected_ids s sel T) as [Hnone Hids].
      apply truthy_some in T. destruct T as [Es Hne].
      apply Deleted with sel; assumption.
    + unfold deleteSelected. rewrite T. apply Kept; auto.
  - destruct (centerHorizontally_ids osz s) as [Ei Es]. apply Kept; auto.
  - destruct (centerVertically_ids osz s) as [Ei Es]. apply Kept; auto.
  - destruct (updateSelectedText_ids patch s) as [Ei Es]. apply Kept; auto.
  - apply Kept; [ apply onChange_ids; reflexivity | auto ].
  - apply Kept; [ apply onChange_ids; reflexivity | auto ].
  - apply Kept; [ apply onChange_ids; reflexivity | auto ].
  - apply Kept; [ apply onChange_ids; reflexivity | auto ].
Qed.


Lemma step_selection_ok (s : Session) (e : Event) :
  selection_ok s -> selection_ok (step s e).
Proof.
  intros [Hsel Hne]. unfold selection_ok.
  destruct (step_effect s e)
    as [ Ei [Es | [Es | (id0 & Es & Hin)]] | p t r _ Ei Es | sel _ _ Es Hids ].
  - rewrite Ei, Es. auto.
  - rewrite Ei, Es. split; [ discriminate | exact Hne ].
  - rewrite Ei, Es. split; [ | exact Hne ].
    intros id E. injection E as <-. exact Hin.
  - rewrite Ei, Es. split.
    + intros id E. injection E as <-. apply in_or_app. right. left. reflexivity.
    + intros id H. apply in_app_or in H.
      destruct H as [H | [<- | []]]; [ apply Hne; exact H | apply newId_nonempty ].
  - rewrite Es. split; [ discriminate | ].
    intros id H. apply Hids in H. apply Hne. tauto.
Qed.

(** The ids after an event are the ids before it, and the new one. *)
Lemma step_ids_made (s : Session) (e : Event) (id : string) :
  In id (ids (step s e)) ->
  In id (ids s) \/ exists p t r, isPrefix p /\ id = newId p t r.
Proof.
  intros H.
  destruct (step_effect s e) as [ Ei _ | p t r Hp Ei _ | sel _ _ _ Hids ].
  - rewrite Ei in H. auto.
  - rewrite Ei in H. apply in_app_or in H.
    destruct H as [H | [<- | []]]; [ auto | ].
    right. exists p, t, r. auto.
  - apply Hids in H. tauto.
Qed.

Lemma run_selection_ok (es : list Event) : selection_ok (run es).
Proof.
  unfold run.
  assert (G : forall s, selection_ok s -> selection_ok (fold_left step es s)).
  { induction es as [ | e es IH ]; intros s Hs; [ exact Hs | ].
    cbn. apply IH. apply step_selection_ok. exact Hs. }
  apply G. split.
  - discriminate.
  - intros id [].
Qed.



(** ** New ids *)

Lemma string_of_uint_noUnderscore (d : Decimal.uint) :
  noUnderscore (NilEmpty.string_of_uint d) = true.
Proof. induction d; cbn; auto. Qed.

Lemma decimal_inj (n m : N) : decimal n = decimal m -> n = m.
Proof.
  unfold decimal. intros H.
  apply DecimalN.Unsigned.to_uint_inj.
  assert (E : Some (N.to_uint n) = Some (N.to_uint m)).
  { rewrite <- !NilEmpty.usu. rewrite H. reflexivity. }
  injection E as E. exact E.
Qed.

(** The first underscore ends the digits. *)
Lemma split_at_underscore (a b r r' : string) :
  noUnderscore a = true -> noUnderscore b = true ->
  (a ++ "_" ++ r = b ++ "_" ++ r')%string -> a = b /\ r = r'.
Proof.
  revert b. induction a as [ | c a IH ]; intros b Ha Hb E.
  - destruct b as [ | c' b ].
    + cbn in E. injection E as E. auto.
    + cbn in E, Hb. injection E as Ec _. subst c'. discriminate Hb.
  - destruct b as [ | c' b ].
    + cbn in E, Ha. injection E as Ec _. subst c. discriminate Ha.
    + cbn in E, Ha, Hb. injection E as Ec E. subst c'.
      apply andb_true_iff in Ha. apply andb_true_iff in Hb.
      destruct (IH b (proj2 Ha) (proj2 Hb) E) as [-> ->]. auto.
Qed.

Lemma newId_inj (p p' : string) (t t' : N) (r r' : string) :
  isPrefix p -> isPrefix p' ->
  newId p t r = newId p' t' r' -> p = p' /\ t = t' /\ r = r'.
Proof.
  unfold newId, decimal.
  intros [-> | ->] [-> | ->] E; cbn in E; try discriminate E.
  - injection E as E.
    apply split_at_underscore in E; try apply string_of_uint_noUnderscore.
    destruct E as [E ->]. apply decimal_inj in E. auto.
  - injection E as E.
    apply split_at_underscore in E; try apply string_of_uint_noUnderscore.
    destruct E as [E ->]. apply decimal_inj in E. auto.
Qed.

Lemma run_ids_made (es : list Event) (id : string) :
  In id (ids (run es)) -> exists p t r, isPrefix p /\ id = newId p t r.
Proof.
  unfold run.
  assert (G : forall s,
             (forall i, In i (ids s) -> exists p t r, isPrefix p /\ i = newId p t r) ->
             forall i, In i (ids (fold_left step es s)) ->
                       exists p t r, isPrefix p /\ i = newId p t r).
  { induction es as [ | e es IH ]; intros s Hs i Hi; [ auto | ].
    cbn in Hi. apply (IH (step s e)); [ | exact Hi ].
    intros j Hj. apply step_ids_made in Hj. destruct Hj as [Hj | Hj]; auto. }
  apply G. intros i [].
Qed.

(** C8, as the code does it: addText and the completed upload append the
    new object at the end of the list and select it; its id is made of the
    kind, the clock's value and the random digits, without a look at the
    list; the ids of a session are all made this way, and a new id
    differs from the id of every object that was made with another kind,
    clock value or random digits. *)
Theorem C8_add_appends_and_selects :
  (forall sz now rnd s, exists it,
     addText (Some sz) now rnd s
     = mkSession (objects s ++ [Text it]) (Some (tx_id it)) /\
     tx_id it = newId "txt" now rnd) /\
  (forall sz url now rnd s, exists it,
     onUploadFileSelected (Some sz) (Done url) now rnd s
     = Done (mkSession (objects s ++ [Image it]) (Some (im_id it))) /\
     im_id it = newId "img" now rnd) /\
  (forall es o,
     In o (objects (run es)) ->
     exists p t r, isPrefix p /\ objId o = newId p t r) /\
  (forall s p now rnd,
     isPrefix p ->
     (forall o, In o (objects s) ->
        exists p' t r, isPrefix p' /\ objId o = newId p' t r /\
                       (p', t, r) <> (p, now, rnd)) ->
     ~ In (newId p now rnd) (ids s)).
Proof.
  split; [ | split; [ | split ] ].
  - intros sz now rnd s.
    exists (mkTextItem (newId "txt" now rnd) "Your text"
              (sz_x sz + sz_width sz / 2) (sz_y sz + sz_height sz / 2)
              0 36 "Roboto" "#ffffff").
    split; reflexivity.
  - intros sz url now rnd s.
    exists (mkImageItem (newId "img" now rnd) url
              (sz_x sz + (sz_width sz - Qmin 240 (sz_width sz)) / 2)
              (sz_y sz + (sz_height sz - Qmin 240 (sz_width sz)) / 2)
              (Qmin 240 (sz_width sz)) (Qmin 240 (sz_width sz)) 0).
    split; reflexivity.
  - intros es o Ho. apply (run_ids_made es).
    unfold ids. apply in_map. exact Ho.
  - intros s p now rnd Hp Hall Hin.
    unfold ids in Hin. apply in_map_iff in Hin.
    destruct Hin as (o & E & Ho).
    destruct (Hall o Ho) as (p' & t & r & Hp' & Eo & Hne).
    rewrite Eo in E. apply newId_inj in E; try assumption.
    destruct E as (-> & -> & ->). apply Hne. reflexivity.
Qed.

Lemma C8_add_appends_and_selects_witness :
  ~ In (newId "txt" 1700000000001 "8f3a1c")
       (ids (run [EAddText (Some zone132) 1700000000000 "8f3a1c"])).
Proof.
  refine (proj2 (proj2 (proj2 C8_add_appends_and_selects))
            (run [EAddText (Some zone132) 1700000000000 "8f3a1c"])
            "txt"%string 1700000000001%N "8f3a1c"%string _ _).
  - right. reflexivity.
  - intros o [<- | []].
    exists "txt"%string, 1700000000000%N, "8f3a1c"%string.
    split; [ right; reflexivity | ].
    split; [ reflexivity | ].
    intros E. discriminate E.
Defined.

(** C8 as stated fails: two texts added at the same clock value with the
    same random digits get the same id. *)
Lemma C8_same_reading_same_id :
  In (newId "txt" 1700000000000 "8f3a1c")
     (ids (run [EAddText (Some zone132) 1700000000000 "8f3a1c"])) /\
  selectedId (addText (Some zone132) 1700000000000 "8f3a1c"
                (run [EAddText (Some zone132) 1700000000000 "8f3a1c"]))
  = Some (newId "txt" 1700000000000 "8f3a1c") /\
  ids (run [EAddText (Some zone132) 1700000000000 "8f3a1c";
            EAddText (Some zone132) 1700000000000 "8f3a1c"])
  = ["txt_1700000000000_8f3a1c"; "txt_1700000000000_8f3a1c"]%string.
Proof.
  split; [ left; reflexivity | ].
  split; reflexivity.
Qed.

(** ** Add to cart while one is in flight *)

Lemma cartStep_fields (p : Page) (e : CartEvent) :
  authenticated (cartStep p e) = authenticated p /\
  productReady (cartStep p e) = productReady p /\
  stageReady (cartStep p e) = stageReady p.
Proof.
  destruct e as [ | i ok ]; cbn [cartStep].
  - destruct p as [a r st f cs fl]. unfold doAddToCart. cbn.
    destruct a, r, f, st; cbn; auto.
  - unfold settle. destruct (nth_error (inflight p) i) as [ a | ]; [ | auto ].
    destruct ok; cbn; [ destruct a; cbn; auto | auto ].
Qed.

Lemma cartRun_fields (es : list CartEvent) :
  forall p,
    authenticated (cartRun es p) = authenticated p /\
    productReady (cartRun es p) = productReady p /\
    stageReady (cartRun es p) = stageReady p.
Proof.
  induction es as [ | e es IH ]; intros p; [ auto | ].
  change (cartRun (e :: es) p) with (cartRun es (cartStep p e)).
  destruct (IH (cartStep p e)) as (-> & -> & ->).
  apply cartStep_fields.
Qed.

Lemma cartStep_guarded (p : Page) (e : CartEvent) :
  guarded p -> guarded (cartStep p e).
Proof.
  intros G. destruct p as [a r st f cs fl]. unfold guarded in *. cbn in G.
  destruct G as [[-> ->] | [-> (x & ->)]].
  - destruct e as [ | i ok ]; cbn.
    + unfold doAddToCart. cbn.
      destruct a, r, st; cbn; guard_case.
    + unfold settle. cbn. destruct i; cbn; guard_case.
  - destruct e as [ | i ok ]; cbn.
    + unfold doAddToCart. cbn.
      destruct a, r; cbn; guard_case.
    + unfold settle. cbn. destruct i as [ | i ]; cbn.
      * destruct ok; cbn; [ destruct x; cbn | ]; guard_case.
      * destruct i; cbn; guard_case.
Qed.

Lemma cartRun_guarded (es : list CartEvent) :
  forall p, guarded p -> guarded (cartRun es p).
Proof.
  induction es as [ | e es IH ]; intros p G; [ exact G | ].
  change (cartRun (e :: es) p) with (cartRun es (cartStep p e)).
  apply IH. apply cartStep_guarded. exact G.
Qed.

Lemma idle_guarded (p : Page) : idle p -> guarded p.
Proof. intros (_ & _ & _ & F & I). left. auto. Qed.

Lemma doAddToCart_in_flight (p : Page) :
  authenticated p = true -> productReady p = true ->
  isAddingToCart p = true -> doAddToCart p = p.
Proof.
  intros A R F. unfold doAddToCart. rewrite A, R, F. reflexivity.
Qed.

(** C6: for a signed-in user on a loaded page, a trigger that arrives
    while isAddingToCart is set changes nothing; with the second trigger
    at any point before the first invocation has finished, the two
    triggers issue one preview export, one upload and one cart-add call,
    as the first alone does; and never are two invocations suspended at
    once. *)
Theorem C6_second_trigger_ignored (p : Page) (Hidle : idle p) :
  (forall es,
     isAddingToCart (cartRun (Trigger :: es) p) = true ->
     doAddToCart (cartRun (Trigger :: es) p) = cartRun (Trigger :: es) p) /\
  (forall k, (k < 3)%nat ->
     cartRun (twoTriggers k) p = cartRun (Trigger :: allResolve) p /\
     issued ExportPreview (cartRun (twoTriggers k) p) = S (issued ExportPreview p) /\
     issued UploadAsset (cartRun (twoTriggers k) p) = S (issued UploadAsset p) /\
     issued CartAdd (cartRun (twoTriggers k) p) = S (issued CartAdd p) /\
     isAddingToCart (cartRun (twoTriggers k) p) = false /\
     inflight (cartRun (twoTriggers k) p) = []) /\
  (forall es, (List.length (inflight (cartRun es p)) <= 1)%nat /\
              (isAddingToCart (cartRun es p) = true <-> inflight (cartRun es p) <> [])).
Proof.
  split; [ | split ].
  - intros es F.
    destruct (cartRun_fields (Trigger :: es) p) as (A & R & _).
    destruct Hidle as (A0 & R0 & _).
    apply doAddToCart_in_flight; congruence.
  - intros k Hk.
    destruct p as [a r st f cs fl].
    destruct Hidle as (A & R & S & F & I). cbn in A, R, S, F, I. subst.
    assert (E : cartRun (twoTriggers k) (mkPage true true true false cs [])
                = cartRun (Trigger :: allResolve) (mkPage true true true false cs [])).
    { destruct k as [ | [ | [ | k ] ] ]; [ reflexivity | reflexivity | reflexivity | lia ]. }
    rewrite E. split; [ reflexivity | ].
    unfold issued. cbn. rewrite !count_occ_app. cbn.
    conjs; try reflexivity; lia.
  - intros es.
    destruct (cartRun_guarded es p (idle_guarded p Hidle)) as [[F I] | [F (a & I)]];
      rewrite F, I; cbn; split; try lia; split; congruence.
Qed.

Lemma C6_second_trigger_ignored_witness :
  idle freshPage /\
  issued UploadAsset (cartRun (twoTriggers 1) freshPage) = 1%nat /\
  issued CartAdd (cartRun (twoTriggers 1) freshPage) = 1%nat.
Proof.
  assert (H : idle freshPage) by (repeat split).
  split; [ exact H | ].
  destruct (proj1 (proj2 (C6_second_trigger_ignored freshPage H)) 1%nat)
    as (_ & _ & U & C & _); [ lia | ].
  split; [ exact U | exact C ].
Defined.

(** * Further properties *)

(** ** The bound function of the resize handles *)

Lemma Qltb_lt (a b : Q) : Qltb a b = true <-> a < b.
Proof.
  unfold Qltb. rewrite negb_true_iff. split.
  - intros H. apply Qnot_le_lt. intros L.
    apply Qle_bool_iff in L. congruence.
  - intros H. destruct (Qle_bool b a) eqn:E; [ | reflexivity ].
    apply Qle_bool_iff in E. exfalso. apply (Qlt_not_le _ _ H). exact E.
Qed.

Lemma Qltb_ge (a b : Q) : Qltb a b = false <-> b <= a.
Proof.
  unfold Qltb. rewrite negb_false_iff. apply Qle_bool_iff.
Qed.

(** Decide the comparisons of the goal, innermost first, and keep the
    inequalities. *)
Ltac ltb_cases :=
  repeat match goal with
  | |- context [Qltb ?a ?b] =>
      lazymatch a with
      | context [Qltb _ _] => fail
      | _ =>
          lazymatch b with
          | context [Qltb _ _] => fail
          | _ =>
              let E := fresh "E" in
              destruct (Qltb a b) eqn:E;
              [ apply Qltb_lt in E | apply Qltb_ge in E ]; cbn
          end
      end
  end.

(** What the transformer is allowed to do: a new box smaller than 20 in
    one direction, or any box while there is no safe zone, is refused (the
    old box stays); otherwise the new box keeps its width, height and
    rotation and only moves; a box no larger than the safe zone is moved
    into it, and a box already within the zone is not moved at all; a box
    wider than the zone ends with its right edge on the zone's right
    edge. *)
Theorem boundBoxFunc_bounds (sz : SafeZone) (oldBox newBox : TBox) :
  boundBoxFunc None oldBox newBox = oldBox /\
  (tb_width newBox < 20 \/ tb_height newBox < 20 ->
   boundBoxFunc (Some sz) oldBox newBox = oldBox) /\
  (20 <= tb_width newBox -> 20 <= tb_height newBox ->
   tb_width (boundBoxFunc (Some sz) oldBox newBox) = tb_width newBox /\
   tb_height (boundBoxFunc (Some sz) oldBox newBox) = tb_height newBox /\
   tb_rotation (boundBoxFunc (Some sz) oldBox newBox) = tb_rotation newBox /\
   (tb_width newBox <= sz_width sz -> tb_height newBox <= sz_height sz ->
    inside (tbRect (boundBoxFunc (Some sz) oldBox newBox)) sz) /\
   (inside (tbRect newBox) sz -> boundBoxFunc (Some sz) oldBox newBox = newBox) /\
   (sz_width sz < tb_width newBox ->
    tb_x (boundBoxFunc (Some sz) oldBox newBox) + tb_width newBox
    == sz_x sz + sz_width sz)).
Proof.
  split; [ reflexivity | ]. split.
  - intros H. unfold boundBoxFunc.
    destruct H as [H | H]; apply Qltb_lt in H; rewrite H;
      [ reflexivity | rewrite orb_true_r; reflexivity ].
  - intros Hw Hh. unfold boundBoxFunc.
    apply Qltb_ge in Hw. apply Qltb_ge in Hh. rewrite Hw, Hh. cbn [orb].
    apply Qltb_ge in Hw. apply Qltb_ge in Hh.
    destruct newBox as [x y w h r]. cbn in *.
    split; [ ltb_cases; reflexivity | ].
    split; [ ltb_cases; reflexivity | ].
    split; [ ltb_cases; reflexivity | ].
    split; [ | split ].
    + intros Lw Lh. unfold inside. ltb_cases; conjs; lra.
    + unfold inside. cbn. intros (I1 & I2 & I3 & I4).
      ltb_cases; try reflexivity; exfalso; lra.
    + intros Lw. ltb_cases; lra.
Qed.

Lemma boundBoxFunc_bounds_witness :
  20 <= 100 /\ 100 <= sz_width zone132 /\
  inside (tbRect (boundBoxFunc (Some zone132) (mkTBox 60 140 240 240 0)
                    (mkTBox 0 0 100 100 0))) zone132.
Proof.
  assert (H20 : 20 <= 100) by (apply Qle_bool_imp_le; reflexivity).
  assert (Hz : 100 <= 416) by (apply Qle_bool_imp_le; reflexivity).
  split; [ exact H20 | split; [ exact Hz | ] ].
  destruct (proj2 (proj2 (boundBoxFunc_bounds zone132 (mkTBox 60 140 240 240 0)
                            (mkTBox 0 0 100 100 0))) H20 H20)
    as (_ & _ & _ & Hin & _).
  exact (Hin Hz Hz).
Defined.

(** ** The size of the stage on the screen *)




(** ** Centring the selected object *)

Lemma centerHorizontally_map (sz : SafeZone) (s : Session) (sel : string) :
  truthy (selectedId s) = Some sel ->
  centerHorizontally (Some sz) s
  = mkSession (map (centerXOf sz sel) (objects s)) (selectedId s).
Proof. intros T. unfold centerHorizontally. rewrite T. reflexivity. Qed.

Lemma centerVertically_map (sz : SafeZone) (s : Session) (sel : string) :
  truthy (selectedId s) = Some sel ->
  centerVertically (Some sz) s
  = mkSession (map (centerYOf sz sel) (objects s)) (selectedId s).
Proof. intros T. unfold centerVertically. rewrite T. reflexivity. Qed.

Lemma centerXOf_spec (sz : SafeZone) (sel : string) (o : DesignObject) :
  objId (centerXOf sz sel o) = objId o /\
  sameButX o (centerXOf sz sel o) /\
  (objId o <> sel -> centerXOf sz sel o = o) /\
  (objId o = sel -> midX (centerXOf sz sel o) == sz_x sz + sz_width sz / 2).
Proof.
  unfold centerXOf.
  destruct (String.eqb_spec (objId o) sel) as [E | N]; cbn [negb].
  - destruct o as [ it | it ]; cbn;
      conjs; try reflexivity;
      try (intros H; contradiction); intros _; try reflexivity; field.
  - destruct o as [ it | it ]; cbn;
      conjs; try reflexivity; intros H; try reflexivity; contradiction.
Qed.

Lemma centerYOf_spec (sz : SafeZone) (sel : string) (o : DesignObject) :
  objId (centerYOf sz sel o) = objId o /\
  sameButY o (centerYOf sz sel o) /\
  (objId o <> sel -> centerYOf sz sel o = o) /\
  (objId o = sel -> midY (centerYOf sz sel o) == sz_y sz + sz_height sz / 2).
Proof.
  unfold centerYOf.
  destruct (String.eqb_spec (objId o) sel) as [E | N]; cbn [negb].
  - destruct o as [ it | it ]; cbn;
      conjs; try reflexivity;
      try (intros H; contradiction); intros _; try reflexivity; field.
  - destruct o as [ it | it ]; cbn;
      conjs; try reflexivity; intros H; try reflexivity; contradiction.
Qed.

(** Centring changes the selected object only, and of it only x
    (horizontally) or y (vertically): the object at every place of the
    list keeps its id and all its other fields, an object that is not
    selected stays as it is, and the selected one gets the middle of its
    rectangle (an image) or its point (a text) on the middle of the safe
    zone.  Without a safe zone or a selection nothing changes. *)
Theorem centering_moves_selected_only (sz : SafeZone) (s : Session) :
  centerHorizontally None s = s /\ centerVertically None s = s /\
  (truthy (selectedId s) = None ->
   centerHorizontally (Some sz) s = s /\ centerVertically (Some sz) s = s) /\
  (forall sel n o,
     truthy (selectedId s) = Some sel ->
     nth_error (objects s) n = Some o ->
     (exists o',
        nth_error (objects (centerHorizontally (Some sz) s)) n = Some o' /\
        sameButX o o' /\ (objId o <> sel -> o' = o) /\
        (objId o = sel -> midX o' == sz_x sz + sz_width sz / 2)) /\
     (exists o',
        nth_error (objects (centerVertically (Some sz) s)) n = Some o' /\
        sameButY o o' /\ (objId o <> sel -> o' = o) /\
        (objId o = sel -> midY o' == sz_y sz + sz_height sz / 2))).
Proof.
  split; [ reflexivity | ]. split; [ reflexivity | ]. split.
  - intros T. unfold centerHorizontally, centerVertically. rewrite T. auto.
  - intros sel n o T Hn. split.
    + exists (centerXOf sz sel o).
      rewrite (centerHorizontally_map sz s sel T). cbn [objects].
      split; [ apply map_nth_error; exact Hn | ].
      destruct (centerXOf_spec sz sel o) as (_ & H1 & H2 & H3). auto.
    + exists (centerYOf sz sel o).
      rewrite (centerVertically_map sz s sel T). cbn [objects].
      split; [ apply map_nth_error; exact Hn | ].
      destruct (centerYOf_spec sz sel o) as (_ & H1 & H2 & H3). auto.
Qed.

Lemma centering_moves_selected_only_witness :
  exists o',
    nth_error (objects (centerHorizontally (Some zone132)
                          (mkSession [Image img240] (Some "img_1_a"%string)))) 0
    = Some o' /\
    sameButX (Image img240) o' /\
    (objId (Image img240) <> "img_1_a"%string -> o' = Image img240) /\
    (objId (Image img240) = "img_1_a"%string ->
     midX o' == sz_x zone132 + sz_width zone132 / 2).
Proof.
  exact (proj1 (proj2 (proj2 (proj2
           (centering_moves_selected_only zone132
              (mkSession [Image img240] (Some "img_1_a"%string)))))
           "img_1_a"%string 0%nat (Image img240) eq_refl eq_refl)).
Defined.

Lemma centerXOf_idem (sz : SafeZone) (sel : string) (o : DesignObject) :
  centerXOf sz sel (centerXOf sz sel o) = centerXOf sz sel o.
Proof.
  unfold centerXOf.
  destruct (String.eqb_spec (objId o) sel) as [E | N]; cbn [negb].
  - destruct o as [ it | it ]; cbn in *; rewrite E, String.eqb_refl; reflexivity.
  - destruct (String.eqb_spec (objId o) sel); [ contradiction | reflexivity ].
Qed.

Lemma centerYOf_idem (sz : SafeZone) (sel : string) (o : DesignObject) :
  centerYOf sz sel (centerYOf sz sel o) = centerYOf sz sel o.
Proof.
  unfold centerYOf.
  destruct (String.eqb_spec (objId o) sel) as [E | N]; cbn [negb].
  - destruct o as [ it | it ]; cbn in *; rewrite E, String.eqb_refl; reflexivity.
  - destruct (String.eqb_spec (objId o) sel); [ contradiction | reflexivity ].
Qed.

Lemma centerXY_comm (sz : SafeZone) (sel : string) (o : DesignObject) :
  centerXOf sz sel (centerYOf sz sel o) = centerYOf sz sel (centerXOf sz sel o).
Proof.
  unfold centerXOf, centerYOf.
  destruct (String.eqb_spec (objId o) sel) as [E | N]; cbn [negb].
  - destruct o as [ it | it ]; cbn in *; rewrite E, String.eqb_refl; reflexivity.
  - destruct (String.eqb_spec (objId o) sel); [ contradiction | reflexivity ].
Qed.

Lemma centered_image_inside (sz : SafeZone) (sel : string) (o : DesignObject)
    (it : DesignImageItem) :
  centerYOf sz sel (centerXOf sz sel o) = Image it -> im_id it = sel ->
  (inside (imageRect it) sz <->
   im_width it <= sz_width sz /\ im_height it <= sz_height sz).
Proof.
  unfold centerXOf, centerYOf.
  destruct o as [ a | a ]; cbn [objId].
  - destruct (String.eqb_spec (im_id a) sel) as [E | N]; cbn.
    + rewrite E, String.eqb_refl. cbn. intros H _. injection H as <-.
      unfold inside. cbn. split.
      * intros (H1 & H2 & H3 & H4). split; qlinear.
      * intros [H1 H2]. conjs; qlinear.
    + destruct (String.eqb_spec (im_id a) sel); [ contradiction | ].
      cbn. intros H Hid. injection H as <-. contradiction.
  - destruct (negb (tx_id a =? sel)%string); cbn;
      [ destruct (negb (tx_id a =? sel)%string) | destruct (negb (tx_id _ =? sel)%string) ];
      discriminate.
Qed.

(** Centring twice is centring once, the two centrings can be done in
    either order, and after both the selected image lies within the safe
    zone (as an unrotated rectangle) exactly when it is no wider and no
    higher than the zone. *)
Theorem centering_composes (sz : SafeZone) (s : Session) :
  centerHorizontally (Some sz) (centerHorizontally (Some sz) s)
  = centerHorizontally (Some sz) s /\
  centerVertically (Some sz) (centerVertically (Some sz) s)
  = centerVertically (Some sz) s /\
  centerHorizontally (Some sz) (centerVertically (Some sz) s)
  = centerVertically (Some sz) (centerHorizontally (Some sz) s) /\
  (forall it,
     In (Image it) (objects (centerVertically (Some sz)
                               (centerHorizontally (Some sz) s))) ->
     selectedId s = Some (im_id it) -> im_id it <> ""%string ->
     (inside (imageRect it) sz <->
      im_width it <= sz_width sz /\ im_height it <= sz_height sz)).
Proof.
  destruct (truthy (selectedId s)) as [ sel | ] eqn:T.
  - assert (TH : truthy (selectedId (centerHorizontally (Some sz) s)) = Some sel)
      by (rewrite (centerHorizontally_map sz s sel T); exact T).
    assert (TV : truthy (selectedId (centerVertically (Some sz) s)) = Some sel)
      by (rewrite (centerVertically_map sz s sel T); exact T).
    rewrite (centerHorizontally_map sz _ sel TH), (centerVertically_map sz _ sel TV).
    rewrite (centerVertically_map sz (centerHorizontally (Some sz) s) sel TH).
    rewrite (centerHorizontally_map sz (centerVertically (Some sz) s) sel TV).
    rewrite (centerHorizontally_map sz s sel T), (centerVertically_map sz s sel T).
    cbn [objects selectedId]. rewrite !map_map.
    split; [ f_equal; apply map_ext; apply centerXOf_idem | ].
    split; [ f_equal; apply map_ext; apply centerYOf_idem | ].
    split; [ f_equal; apply map_ext; apply centerXY_comm | ].
    intros it Hin Hsel Hne.
    apply in_map_iff in Hin. destruct Hin as (o & Ho & _).
    apply (centered_image_inside sz sel o it Ho).
    apply truthy_some in T. destruct T as [T _]. congruence.
  - unfold centerHorizontally, centerVertically. rewrite T. cbn. rewrite T.
    conjs; try reflexivity.
    intros it _ Hsel Hne. exfalso.
    assert (X : truthy (selectedId s) = Some (im_id it))
      by (apply truthy_some; auto).
    congruence.
Qed.

Lemma centering_composes_witness :
  inside (imageRect (mkImageItem "img_1_a" "https://cdn.example/a.png"
                       (52 + (416 - 240) / 2) (132 + (416 - 240) / 2) 240 240 0))
    zone132 <->
  240 <= sz_width zone132 /\ 240 <= sz_height zone132.
Proof.
  refine (proj2 (proj2 (proj2
            (centering_composes zone132
               (mkSession [Image img240] (Some "img_1_a"%string))))) _ _ _ _).
  - left. reflexivity.
  - reflexivity.
  - discriminate.
Defined.

(** ** The text options *)

Lemma updateSelectedText_map (patch : TextPatch) (s : Session) (sel : string) :
  truthy (selectedId s) = Some sel ->
  updateSelectedText patch s
  = mkSession (map (patchOf patch sel) (objects s)) (selectedId s).
Proof. intros T. unfold updateSelectedText. rewrite T. reflexivity. Qed.

Lemma applyPatch_keeps (patch : TextPatch) (t : DesignTextItem) :
  tx_id (applyPatch patch t) = tx_id t /\
  tx_x (applyPatch patch t) = tx_x t /\
  tx_y (applyPatch patch t) = tx_y t /\
  tx_rotation (applyPatch patch t) = tx_rotation t.
Proof. destruct patch; cbn; auto. Qed.

Lemma patchOf_spec (patch : TextPatch) (sel : string) (o : DesignObject) :
  objId (patchOf patch sel o) = objId o /\
  objX (patchOf patch sel o) = objX o /\
  objY (patchOf patch sel o) = objY o /\
  objRotation (patchOf patch sel o) = objRotation o /\
  (objId o <> sel -> patchOf patch sel o = o) /\
  (forall it, o = Image it -> patchOf patch sel o = o) /\
  (forall t, o = Text t -> tx_id t = sel ->
             patchOf patch sel o = Text (applyPatch patch t)).
Proof.
  unfold patchOf.
  destruct (String.eqb_spec (objId o) sel) as [E | N]; cbn [negb].
  - destruct o as [ it | t ]; cbn.
    + conjs; try reflexivity; discriminate.
    + destruct (applyPatch_keeps patch t) as (H1 & H2 & H3 & H4).
      conjs; try assumption; try discriminate.
      * intros H. contradiction.
      * intros t' Ht _. injection Ht as <-. reflexivity.
  - conjs; try reflexivity. intros t -> Hid. contradiction.
Qed.

Lemma patchOf_comm (p q : TextPatch) (sel : string) (o : DesignObject) :
  patchField p <> patchField q ->
  patchOf p sel (patchOf q sel o) = patchOf q sel (patchOf p sel o).
Proof.
  intros H. unfold patchOf.
  destruct (String.eqb_spec (objId o) sel) as [E | N]; cbn [negb].
  - destruct o as [ it | t ]; cbn in *; rewrite ?E, ?String.eqb_refl; cbn.
    + reflexivity.
    + destruct (applyPatch_keeps p t) as (-> & _).
      destruct (applyPatch_keeps q t) as (-> & _).
      rewrite E, String.eqb_refl. cbn.
      destruct p, q; cbn in *; try reflexivity; contradiction.
  - destruct (String.eqb_spec (objId o) sel); [ contradiction | reflexivity ].
Qed.

Lemma patchOf_last (p q : TextPatch) (sel : string) (o : DesignObject) :
  patchField p = patchField q ->
  patchOf p sel (patchOf q sel o) = patchOf p sel o.
Proof.
  intros H. unfold patchOf.
  destruct (String.eqb_spec (objId o) sel) as [E | N]; cbn [negb].
  - destruct o as [ it | t ]; cbn in *; rewrite ?E, ?String.eqb_refl; cbn.
    + reflexivity.
    + destruct (applyPatch_keeps q t) as (-> & _).
      rewrite E, String.eqb_refl. cbn.
      destruct p, q; cbn in *; try reflexivity; discriminate.
  - destruct (String.eqb_spec (objId o) sel); [ contradiction | reflexivity ].
Qed.

(** A patch of the text options reaches the selected text only: every
    object keeps its place, id, position and rotation, an image or an
    object that is not selected stays as it is, and nothing changes
    without a selection.  Patches of two different fields can be applied in
    either order; of two patches of one field the later one counts. *)
Theorem updateSelectedText_scope (s : Session) :
  (forall patch,
     truthy (selectedId s) = None -> updateSelectedText patch s = s) /\
  (forall patch sel n o,
     truthy (selectedId s) = Some sel ->
     nth_error (objects s) n = Some o ->
     exists o',
       nth_error (objects (updateSelectedText patch s)) n = Some o' /\
       objId o' = objId o /\ objX o' = objX o /\ objY o' = objY o /\
       objRotation o' = objRotation o /\
       (objId o <> sel -> o' = o) /\
       (forall it, o = Image it -> o' = o) /\
       (forall t, o = Text t -> tx_id t = sel -> o' = Text (applyPatch patch t))) /\
  (forall p q,
     patchField p <> patchField q ->
     updateSelectedText p (updateSelectedText q s)
     = updateSelectedText q (updateSelectedText p s)) /\
  (forall p q,
     patchField p = patchField q ->
     updateSelectedText p (updateSelectedText q s) = updateSelectedText p s).
Proof.
  split; [ | split; [ | split ] ].
  - intros patch T. unfold updateSelectedText. rewrite T. reflexivity.
  - intros patch sel n o T Hn. exists (patchOf patch sel o).
    rewrite (updateSelectedText_map patch s sel T). cbn [objects].
    split; [ apply map_nth_error; exact Hn | apply patchOf_spec ].
  - intros p q H.
    destruct (truthy (selectedId s)) as [ sel | ] eqn:T.
    + rewrite (updateSelectedText_map q s sel T), (updateSelectedText_map p s sel T).
      rewrite !(updateSelectedText_map _ _ sel) by exact T.
      cbn [objects selectedId]. rewrite !map_map.
      f_equal. apply map_ext. intros o. apply patchOf_comm. exact H.
    + unfold updateSelectedText. rewrite T. cbn. rewrite T. reflexivity.
  - intros p q H.
    destruct (truthy (selectedId s)) as [ sel | ] eqn:T.
    + rewrite (updateSelectedText_map q s sel T), (updateSelectedText_map p s sel T).
      rewrite !(updateSelectedText_map _ _ sel) by exact T.
      cbn [objects selectedId]. rewrite !map_map.
      f_equal. apply map_ext. intros o. apply patchOf_last. exact H.
    + unfold updateSelectedText. rewrite T. cbn. rewrite T. reflexivity.
Qed.

Lemma updateSelectedText_scope_witness :
  updateSelectedText (PatchFill "#000000") (updateSelectedText (PatchText "Hi")
    (mkSession [Text text36] (Some "txt_1_a"%string)))
  = updateSelectedText (PatchText "Hi") (updateSelectedText (PatchFill "#000000")
      (mkSession [Text text36] (Some "txt_1_a"%string))).
Proof.
  refine (proj1 (proj2 (proj2 (updateSelectedText_scope
            (mkSession [Text text36] (Some "txt_1_a"%string)))))
            (PatchFill "#000000") (PatchText "Hi") _).
  discriminate.
Defined.

(** ** The font size of the texts *)

Lemma Forall_map_keeps (P : DesignObject -> Prop) (f : DesignObject -> DesignObject)
    (l : list DesignObject) :
  (forall o, P o -> P (f o)) -> Forall P l -> Forall P (map f l).
Proof.
  intros H F. apply Forall_map. revert F. apply Forall_impl. exact H.
Qed.

Lemma step_fontOk (s : Session) (e : Event) :
  rendered s e -> Forall fontOk (objects s) -> Forall fontOk (objects (step s e)).
Proof.
  intros R F.
  destruct e as [ osz asset now rnd | osz now rnd | id | | | osz | osz | patch
                | item node | sz item node | item node | item node ];
    cbn [step].
  - unfold onUploadFileSelected.
    destruct osz as [ sz | ]; [ | exact F ].
    destruct asset as [ url | msg ]; [ | exact F ].
    cbn. apply Forall_app. split; [ exact F | ]. repeat constructor.
  - unfold addText. destruct osz as [ sz | ]; [ | exact F ].
    cbn. apply Forall_app. split; [ exact F | ].
    constructor; [ | constructor ]. cbn. split; apply Qle_bool_imp_le; reflexivity.
  - unfold select. destruct (existsb _ _); exact F.
  - exact F.
  - unfold deleteSelected. destruct (truthy (selectedId s)); [ | exact F ].
    cbn. apply Forall_forall. intros o Ho. apply filter_In in Ho.
    destruct Ho as [Ho _]. revert o Ho. apply Forall_forall. exact F.
  - unfold centerHorizontally.
    destruct osz as [ sz | ]; [ | exact F ].
    destruct (truthy (selectedId s)) as [ sel | ]; [ | exact F ].
    cbn. apply Forall_map_keeps; [ | exact F ].
    intros o Ho. destruct (negb (objId o =? sel)%string); [ exact Ho | ].
    destruct o; exact Ho.
  - unfold centerVertically.
    destruct osz as [ sz | ]; [ | exact F ].
    destruct (truthy (selectedId s)) as [ sel | ]; [ | exact F ].
    cbn. apply Forall_map_keeps; [ | exact F ].
    intros o Ho. destruct (negb (objId o =? sel)%string); [ exact Ho | ].
    destruct o; exact Ho.
  - unfold updateSelectedText.
    destruct (truthy (selectedId s)) as [ sel | ]; [ | exact F ].
    cbn. apply Forall_map_keeps; [ | exact F ].
    intros o Ho. destruct (negb (objId o =? sel)%string); [ exact Ho | ].
    destruct o as [ it | t ]; [ exact Ho | ].
    destruct patch; cbn in *; try exact Ho. exact R.
  - cbn. apply Forall_map_keeps; [ | exact F ].
    intros o Ho. destruct (objId o =? im_id item)%string; [ exact I | exact Ho ].
  - cbn. apply Forall_map_keeps; [ | exact F ].
    intros o Ho. destruct (objId o =? im_id item)%string; [ exact I | exact Ho ].
  - cbn in R. cbn. apply Forall_map_keeps; [ | exact F ].
    intros o Ho. destruct (objId o =? tx_id item)%string; [ | exact Ho ].
    apply Forall_forall with (x := Text item) in F; [ exact F | exact R ].
  - cbn. apply Forall_map_keeps; [ | exact F ].
    intros o Ho. destruct (objId o =? tx_id item)%string; [ | exact Ho ].
    apply (text_resize_fontSize_range item node).
Qed.

(** Whatever the user does on the rendered page, the font size of every
    text of the session is between 12 and 100: the new text has 36, the
    resize clamps, the slider stays in its range and no other event
    changes a font size. *)
Theorem fontSize_always_in_range (es : list Event) (t : DesignTextItem) :
  renderedFrom emptySession es ->
  In (Text t) (objects (run es)) ->
  12 <= tx_fontSize t /\ tx_fontSize t <= 100.
Proof.
  intros R Hin.
  assert (G : forall s, renderedFrom s es -> Forall fontOk (objects s) ->
                        Forall fontOk (objects (fold_left step es s))).
  { clear R Hin. induction es as [ | e es IH ]; intros s R F; [ exact F | ].
    destruct R as [R1 R2]. cbn. apply IH; [ exact R2 | ].
    apply step_fontOk; assumption. }
  specialize (G emptySession R (Forall_nil _)).
  apply Forall_forall with (x := Text t) in G; [ exact G | exact Hin ].
Qed.

Lemma fontSize_always_in_range_witness :
  renderedFrom emptySession
    [EAddText (Some zone132) 1700000000000 "8f3a1c";
     EUpdateSelectedText (PatchFontSize 50)] /\
  12 <= 50 /\ 50 <= 100.
Proof.
  assert (B : 12 <= 50 /\ 50 <= 100)
    by (split; apply Qle_bool_imp_le; reflexivity).
  assert (R : renderedFrom emptySession
                [EAddText (Some zone132) 1700000000000 "8f3a1c";
                 EUpdateSelectedText (PatchFontSize 50)])
    by (cbn; auto).
  split; [ exact R | ].
  refine (fontSize_always_in_range _
            (mkTextItem "txt_1700000000000_8f3a1c" "Your text"
               (52 + 416 / 2) (132 + 416 / 2) 0 50 "Roboto" "#ffffff") R _).
  left. reflexivity.
Defined.

(** ** Ids that differ *)

Lemma ids_filter (sel : string) (l : list DesignObject) :
  map objId (filter (fun it => negb (objId it =? sel)%string) l)
  = filter (fun i => negb (i =? sel)%string) (map objId l).
Proof.
  induction l as [ | o l IH ]; [ reflexivity | ].
  cbn. destruct (negb (objId o =? sel)%string); cbn; rewrite IH; reflexivity.
Qed.

(** What an event does to the list of ids: it appends the id made from
    its reading, or it has no reading and keeps the ids or filters one
    id out. *)
Lemma step_ids_reading (s : Session) (e : Event) :
  match reading e with
  | Some r => isPrefix (fst (fst r)) /\ ids (step s e) = ids s ++ [idOf r]
  | None =>
      ids (step s e) = ids s \/
      exists sel, ids (step s e) = filter (fun i => negb (i =? sel)%string) (ids s)
  end.
Proof.
  destruct e as [ osz asset now rnd | osz now rnd | id | | | osz | osz | patch
                | item node | sz item node | item node | item node ];
    cbn [reading step].
  - destruct osz as [ sz | ]; [ | left; reflexivity ].
    destruct asset as [ url | msg ]; [ | left; reflexivity ].
    split; [ left; reflexivity | apply ids_app ].
  - destruct osz as [ sz | ]; [ | left; reflexivity ].
    split; [ right; reflexivity | apply ids_app ].
  - left. unfold select. destruct (existsb _ _); reflexivity.
  - left. reflexivity.
  - unfold deleteSelected. destruct (truthy (selectedId s)) as [ sel | ].
    + right. exists sel. unfold ids. cbn. apply ids_filter.
    + left. reflexivity.
  - left. apply centerHorizontally_ids.
  - left. apply centerVertically_ids.
  - left. apply updateSelectedText_ids.
  - left. apply onChange_ids. reflexivity.
  - left. apply onChange_ids. reflexivity.
  - left. apply onChange_ids. reflexivity.
  - left. apply onChange_ids. reflexivity.
Qed.

Lemma idOf_inj (r r' : string * N * string) :
  isPrefix (fst (fst r)) -> isPrefix (fst (fst r')) -> idOf r = idOf r' -> r = r'.
Proof.
  destruct r as [[p t] d], r' as [[p' t'] d']. unfold idOf. cbn.
  intros H H' E. destruct (newId_inj p p' t t' d d' H H' E) as (-> & -> & ->).
  reflexivity.
Qed.

Lemma step_distinctFrom (seen : list (string * N * string)) (s : Session) (e : Event) :
  distinctFrom seen s ->
  match reading e with
  | Some r => ~ In r seen -> distinctFrom (seen ++ [r]) (step s e)
  | None => distinctFrom seen (step s e)
  end.
Proof.
  intros [ND Hmade]. pose proof (step_ids_reading s e) as H.
  destruct (reading e) as [ r | ].
  - destruct H as [Hp Ei]. intros Hnew. split.
    + rewrite Ei. apply NoDup_app; [ exact ND | repeat constructor; intros [] | ].
      intros id Hin [<- | []].
      destruct (Hmade _ Hin) as (r' & Hr' & Hp' & E).
      apply idOf_inj in E; try assumption. subst r'. contradiction.
    + intros id Hin. rewrite Ei in Hin. apply in_app_or in Hin.
      destruct Hin as [Hin | [<- | []]].
      * destruct (Hmade _ Hin) as (r' & Hr' & Hp' & E).
        exists r'. split; [ apply in_or_app; left; exact Hr' | auto ].
      * exists r. split; [ apply in_or_app; right; left; reflexivity | auto ].
  - destruct H as [Ei | (sel & Ei)]; split; rewrite Ei.
    + exact ND.
    + exact Hmade.
    + apply NoDup_filter. exact ND.
    + intros id Hin. apply filter_In in Hin. apply Hmade. tauto.
Qed.

Lemma run_distinct (es : list Event) :
  forall seen s,
    distinctFrom seen s -> NoDup (seen ++ readings es) ->
    NoDup (ids (fold_left step es s)).
Proof.
  induction es as [ | e es IH ]; intros seen s D ND.
  - exact (proj1 D).
  - cbn [fold_left readings] in *.
    pose proof (step_distinctFrom seen s e D) as H.
    destruct (reading e) as [ r | ].
    + apply (IH (seen ++ [r])).
      * apply H. apply NoDup_remove_2 in ND. intros Hin. apply ND.
        apply in_or_app. left. exact Hin.
      * rewrite <- app_assoc. exact ND.
    + apply (IH seen); assumption.
Qed.

(** The ids of the session are pairwise different as long as no two
    objects were added with the same kind, clock value and random
    digits. *)
Theorem ids_distinct_for_distinct_readings (es : list Event) :
  NoDup (readings es) -> NoDup (ids (run es)).
Proof.
  intros ND. apply (run_distinct es [] emptySession).
  - split; [ constructor | intros id [] ].
  - exact ND.
Qed.

Lemma ids_distinct_for_distinct_readings_witness :
  NoDup (ids (run [EAddText (Some zone132) 1700000000000 "8f3a1c";
                   EUploaded (Some zone132) (Done "https://cdn.example/a.png"%string)
                     1700000000000 "8f3a1c";
                   EAddText (Some zone132) 1700000000001 "8f3a1c"])).
Proof.
  apply ids_distinct_for_distinct_readings.
  cbn. repeat constructor; cbn; intuition discriminate.
Defined.

(** ** The selected object *)

Lemma NoDup_map_eq (l : list DesignObject) (a b : DesignObject) :
  NoDup (map objId l) -> In a l -> In b l -> objId a = objId b -> a = b.
Proof.
  induction l as [ | o l IH ]; intros ND Ha Hb E; [ destruct Ha | ].
  cbn in ND. inversion ND as [ | x xs Hnot ND' ]; subst.
  destruct Ha as [-> | Ha], Hb as [-> | Hb].
  - reflexivity.
  - exfalso. apply Hnot. rewrite E. apply in_map. exact Hb.
  - exfalso. apply Hnot. rewrite <- E. apply in_map. exact Ha.
  - apply IH; assumption.
Qed.

Lemma find_id_some (sel : string) (l : list DesignObject) :
  In sel (map objId l) ->
  exists o, find (fun o => (objId o =? sel)%string) l = Some o /\
            objId o = sel /\ In o l.
Proof.
  intros Hin.
  destruct (find (fun o => (objId o =? sel)%string) l) as [ o | ] eqn:F.
  - exists o. destruct (find_some _ _ F) as [Ho E].
    apply String.eqb_eq in E. auto.
  - exfalso. apply in_map_iff in Hin. destruct Hin as (o & E & Ho).
    pose proof (find_none _ _ F o Ho) as N. cbn in N.
    rewrite E, String.eqb_refl in N. discriminate N.
Qed.

Lemma run_truthy (es : list Event) (id : string) :
  selectedId (run es) = Some id -> truthy (selectedId (run es)) = Some id.
Proof.
  intros Hsel. destruct (run_selection_ok es) as [Hin Hne].
  apply truthy_some. split; [ exact Hsel | ]. apply Hne. apply Hin. exact Hsel.
Qed.

(** In every session that the events produce, the selected object that
    the options panel reads exists exactly when selectedId is set, and
    carries that id; the text options are shown exactly when it is a text;
    and when the ids were made from different readings it is the only
    object of that id. *)
Theorem selectedObject_follows_selectedId (es : list Event) :
  (selectedId (run es) = None -> selectedObject (run es) = None) /\
  (forall id,
     selectedId (run es) = Some id ->
     exists o, selectedObject (run es) = Some o /\ objId o = id /\
               In o (objects (run es))) /\
  (textOptionsShown (run es) = true <->
   exists t, selectedObject (run es) = Some (Text t) /\
             selectedId (run es) = Some (tx_id t)) /\
  (NoDup (readings es) ->
   forall id o,
     selectedId (run es) = Some id -> In o (objects (run es)) -> objId o = id ->
     selectedObject (run es) = Some o).
Proof.
  assert (S : forall id, selectedId (run es) = Some id ->
                exists o, selectedObject (run es) = Some o /\ objId o = id /\
                          In o (objects (run es))).
  { intros id Hsel. unfold selectedObject. rewrite (run_truthy es id Hsel).
    apply find_id_some. apply (proj1 (run_selection_ok es)). exact Hsel. }
  split; [ | split; [ exact S | split ] ].
  - intros Hsel. unfold selectedObject. rewrite Hsel. reflexivity.
  - unfold textOptionsShown. split.
    + destruct (selectedObject (run es)) as [ [ it | t ] | ] eqn:O; try discriminate.
      intros _. exists t. split; [ reflexivity | ].
      destruct (selectedId (run es)) as [ id | ] eqn:Hsel.
      * destruct (S id eq_refl) as (o & Eo & Hid & _).
        injection Eo as <-. cbn in Hid. congruence.
      * unfold selectedObject in O. rewrite Hsel in O. discriminate O.
    + intros (t & -> & _). reflexivity.
  - intros ND id o Hsel Ho Hid.
    destruct (S id Hsel) as (o' & Eo & Hid' & Ho'). rewrite Eo. f_equal.
    apply (NoDup_map_eq (objects (run es))); try assumption.
    + apply ids_distinct_for_distinct_readings. exact ND.
    + congruence.
Qed.

Lemma selectedObject_follows_selectedId_witness :
  exists o,
    selectedObject (run [EAddText (Some zone132) 1700000000000 "8f3a1c"]) = Some o /\
    objId o = "txt_1700000000000_8f3a1c"%string /\
    In o (objects (run [EAddText (Some zone132) 1700000000000 "8f3a1c"])).
Proof.
  exact (proj1 (proj2 (selectedObject_follows_selectedId
                         [EAddText (Some zone132) 1700000000000 "8f3a1c"]))
           "txt_1700000000000_8f3a1c"%string eq_refl).
Defined.

(** ** Deleting one object *)

Lemma filter_all (f : DesignObject -> bool) (l : list DesignObject) :
  (forall o, In o l -> f o = true) -> filter f l = l.
Proof.
  induction l as [ | o l IH ]; intros H; [ reflexivity | ].
  cbn. rewrite (H o (or_introl eq_refl)). f_equal.
  apply IH. intros x Hx. apply H. right. exact Hx.
Qed.

(** When the ids were made from different readings, deleting the
    selected object takes exactly that one object out of the list and
    leaves the others where they are, in their order. *)
Theorem deleteSelected_removes_one (es : list Event) (id : string) :
  NoDup (readings es) ->
  selectedId (run es) = Some id ->
  exists before o after,
    objects (run es) = before ++ o :: after /\ objId o = id /\
    objects (deleteSelected (run es)) = before ++ after /\
    selectedId (deleteSelected (run es)) = None.
Proof.
  intros ND Hsel.
  pose proof (ids_distinct_for_distinct_readings es ND) as D.
  pose proof (run_truthy es id Hsel) as T.
  pose proof (proj1 (run_selection_ok es) id Hsel) as Hin.
  unfold ids in Hin, D. apply in_map_iff in Hin. destruct Hin as (o & Hid & Ho).
  apply in_split in Ho. destruct Ho as (before & after & E).
  exists before, o, after. split; [ exact E | split; [ exact Hid | ] ].
  unfold deleteSelected. rewrite T. cbn [objects selectedId].
  split; [ | reflexivity ].
  rewrite E in D |- *. rewrite map_app in D. cbn in D.
  apply NoDup_remove_2 in D.
  rewrite filter_app. cbn. rewrite Hid, String.eqb_refl. cbn.
  rewrite !filter_all; [ reflexivity | | ].
  - intros x Hx. destruct (String.eqb_spec (objId x) id) as [Ex | _]; [ | reflexivity ].
    exfalso. apply D. apply in_or_app. right. rewrite Hid, <- Ex.
    apply in_map. exact Hx.
  - intros x Hx. destruct (String.eqb_spec (objId x) id) as [Ex | _]; [ | reflexivity ].
    exfalso. apply D. apply in_or_app. left. rewrite Hid, <- Ex.
    apply in_map. exact Hx.
Qed.

Lemma deleteSelected_removes_one_witness :
  exists before o after,
    objects (run [EAddText (Some zone132) 1700000000000 "8f3a1c"])
    = before ++ o :: after /\
    objId o = "txt_1700000000000_8f3a1c"%string /\
    objects (deleteSelected (run [EAddText (Some zone132) 1700000000000 "8f3a1c"]))
    = before ++ after /\
    selectedId (deleteSelected (run [EAddText (Some zone132) 1700000000000 "8f3a1c"]))
    = None.
Proof.
  refine (deleteSelected_removes_one
            [EAddText (Some zone132) 1700000000000 "8f3a1c"]
            "txt_1700000000000_8f3a1c"%string _ eq_refl).
  cbn. repeat constructor. intros [].
Defined.

(** ** The calls of add to cart *)

(** Count the calls of a page whose fields are known. *)
Ltac count_calls :=
  unfold inOrder, issued, pending in *; cbn in *;
  rewrite ?count_occ_app in *; cbn in *.

Lemma cartStep_inOrder (p : Page) (e : CartEvent) :
  guarded p -> inOrder p -> inOrder (cartStep p e).
Proof.
  intros G K. destruct p as [a r st f cs fl]. unfold guarded in G. cbn in G.
  destruct G as [[-> ->] | [-> (x & ->)]].
  - destruct e as [ | i ok ]; cbn.
    + unfold doAddToCart. cbn.
      destruct a, r, st; count_calls; lia.
    + unfold settle. cbn. destruct i; count_calls; lia.
  - destruct e as [ | i ok ]; cbn.
    + unfold doAddToCart. cbn. destruct a, r; count_calls; lia.
    + unfold settle. cbn. destruct i as [ | i ]; cbn.
      * destruct ok; cbn; [ destruct x | ]; count_calls;
          try destruct x; cbn in *; lia.
      * destruct i; count_calls; lia.
Qed.

Lemma cartRun_inOrder (es : list CartEvent) :
  forall p, guarded p -> inOrder p -> inOrder (cartRun es p).
Proof.
  induction es as [ | e es IH ]; intros p G K; [ exact K | ].
  change (cartRun (e :: es) p) with (cartRun es (cartStep p e)).
  apply IH; [ apply cartStep_guarded | apply cartStep_inOrder ]; assumption.
Qed.

Lemma cartStep_exports (p : Page) (e : CartEvent) :
  (issued ExportPreview (cartStep p e)
   <= issued ExportPreview p + triggers [e])%nat.
Proof.
  destruct p as [a r st f cs fl]. destruct e as [ | i ok ]; cbn.
  - unfold doAddToCart. cbn. destruct a, r, f, st; count_calls; lia.
  - unfold settle. cbn.
    destruct (nth_error fl i) as [ x | ]; [ | count_calls; lia ].
    destruct ok; cbn; [ destruct x | ]; count_calls; lia.
Qed.

Lemma cartRun_exports (es : list CartEvent) :
  forall p, (issued ExportPreview (cartRun es p)
             <= issued ExportPreview p + triggers es)%nat.
Proof.
  induction es as [ | e es IH ]; intros p; [ cbn; lia | ].
  change (cartRun (e :: es) p) with (cartRun es (cartStep p e)).
  specialize (IH (cartStep p e)). pose proof (cartStep_exports p e) as H.
  destruct e; cbn in *; lia.
Qed.

(** From a page on which nothing was called yet, whatever the clicks and
    the answers of the server: there are never more success messages than
    cart-add calls, more cart-add calls than uploads, more uploads than
    preview exports, nor more exports than clicks. *)
Theorem addToCart_calls_in_order (p : Page) (es : list CartEvent) :
  idle p -> calls p = [] ->
  (issued ToastSuccess (cartRun es p) <= issued CartAdd (cartRun es p))%nat /\
  (issued CartAdd (cartRun es p) <= issued UploadAsset (cartRun es p))%nat /\
  (issued UploadAsset (cartRun es p) <= issued ExportPreview (cartRun es p))%nat /\
  (issued ExportPreview (cartRun es p) <= triggers es)%nat.
Proof.
  intros Hidle Hc.
  assert (K : inOrder p).
  { destruct Hidle as (_ & _ & _ & _ & I). unfold inOrder, issued, pending.
    rewrite Hc, I. cbn. lia. }
  destruct (cartRun_inOrder es p (idle_guarded p Hidle) K) as (K1 & K2 & K3).
  pose proof (cartRun_exports es p) as X.
  unfold issued at 2 in X. rewrite Hc in X. cbn in X.
  conjs; lia.
Qed.

Lemma addToCart_calls_in_order_witness :
  (issued CartAdd (cartRun [Trigger; Settle 0 true; Settle 0 false] freshPage)
   <= issued UploadAsset (cartRun [Trigger; Settle 0 true; Settle 0 false] freshPage))%nat.
Proof.
  assert (H : idle freshPage) by (unfold idle; cbn; auto).
  exact (proj1 (proj2 (addToCart_calls_in_order freshPage
                         [Trigger; Settle 0 true; Settle 0 false] H eq_refl))).
Defined.

Lemma cartRun_cons (e : CartEvent) (es : list CartEvent) (p : Page) :
  cartRun (e :: es) p = cartRun es (cartStep p e).
Proof. reflexivity. Qed.

Lemma cartStep_closed_gate (p : Page) (e : CartEvent) (c : Call) :
  isAddingToCart p = false -> inflight p = [] ->
  doAddToCart p = issue c p ->
  isAddingToCart (cartStep p e) = false /\ inflight (cartStep p e) = [] /\
  authenticated (cartStep p e) = authenticated p /\
  productReady (cartStep p e) = productReady p /\
  calls (cartStep p e) = calls p ++ repeat c (triggers [e]).
Proof.
  intros F I D. destruct e as [ | i ok ]; cbn [cartStep triggers repeat].
  - rewrite D. cbn. auto.
  - unfold settle. rewrite I. destruct i; cbn; rewrite List.app_nil_r; auto.
Qed.

Lemma cartRun_closed_gate (c : Call) (es : list CartEvent) :
  forall p,
    isAddingToCart p = false -> inflight p = [] ->
    (forall q, authenticated q = authenticated p ->
               productReady q = productReady p ->
               doAddToCart q = issue c q) ->
    isAddingToCart (cartRun es p) = false /\ inflight (cartRun es p) = [] /\
    calls (cartRun es p) = calls p ++ repeat c (triggers es).
Proof.
  induction es as [ | e es IH ]; intros p F I D.
  - cbn. rewrite List.app_nil_r. auto.
  - rewrite cartRun_cons.
    destruct (cartStep_closed_gate p e c F I (D p eq_refl eq_refl))
      as (F' & I' & A' & R' & C').
    destruct (IH (cartStep p e) F' I') as (F2 & I2 & C2).
    + intros q Hq1 Hq2. apply D; congruence.
    + split; [ exact F2 | split; [ exact I2 | ] ].
      rewrite C2, C', <- List.app_assoc, <- repeat_app.
      destruct e; reflexivity.
Qed.

(** While the user is not signed in, every click on add to cart opens the
    sign-in dialog and nothing else is called: no export, no upload, no
    cart-add, and the in-flight flag stays down.  For a signed-in user on a
    page whose product is not loaded, every click shows an error message
    and nothing else is called. *)
Theorem addToCart_gates (p : Page) (es : list CartEvent) :
  isAddingToCart p = false -> inflight p = [] ->
  (authenticated p = false ->
   calls (cartRun es p) = calls p ++ repeat OpenAuthModal (triggers es) /\
   isAddingToCart (cartRun es p) = false /\ inflight (cartRun es p) = []) /\
  (authenticated p = true -> productReady p = false ->
   calls (cartRun es p) = calls p ++ repeat ToastError (triggers es) /\
   isAddingToCart (cartRun es p) = false /\ inflight (cartRun es p) = []).
Proof.
  intros F I. split.
  - intros A.
    destruct (cartRun_closed_gate OpenAuthModal es p F I) as (F' & I' & C').
    + intros q Hq _. unfold doAddToCart. rewrite Hq, A. reflexivity.
    + auto.
  - intros A R.
    destruct (cartRun_closed_gate ToastError es p F I) as (F' & I' & C').
    + intros q Hq1 Hq2. unfold doAddToCart. rewrite Hq1, Hq2, A, R. reflexivity.
    + auto.
Qed.

Lemma addToCart_gates_witness :
  calls (cartRun [Trigger; Settle 0 true; Trigger] (mkPage false true true false [] []))
  = [OpenAuthModal; OpenAuthModal].
Proof.
  exact (proj1 (proj1 (addToCart_gates (mkPage false true true false [] [])
                         [Trigger; Settle 0 true; Trigger] eq_refl eq_refl)
                  eq_refl)).
Defined.

(** When the export, the upload or the cart-add of an invocation fails,
    the page is as before the click but for one error message: the flag
    is down, nothing is in flight, no success message was shown; and a
    new click then runs to its success message. *)
Theorem addToCart_failure_then_retry (p : Page) (k : nat) :
  idle p -> (k < 3)%nat ->
  let q := cartRun (Trigger :: firstn k allResolve ++ [Settle 0 false]) p in
  idle q /\
  issued ToastError q = S (issued ToastError p) /\
  issued ToastSuccess q = issued ToastSuccess p /\
  idle (cartRun (Trigger :: allResolve) q) /\
  issued ToastSuccess (cartRun (Trigger :: allResolve) q)
  = S (issued ToastSuccess p) /\
  issued ToastError (cartRun (Trigger :: allResolve) q)
  = S (issued ToastError p).
Proof.
  intros Hidle Hk. destruct p as [a r st f cs fl].
  destruct Hidle as (A & R & S & F & I). cbn in A, R, S, F, I. subst.
  destruct k as [ | [ | [ | k ] ] ]; [ | | | lia ];
    cbn; unfold idle, issued; cbn; rewrite ?count_occ_app; cbn;
    conjs; try reflexivity; lia.
Qed.

Lemma addToCart_failure_then_retry_witness :
  idle freshPage /\
  issued ToastSuccess
    (cartRun (Trigger :: allResolve)
       (cartRun (Trigger :: firstn 1 allResolve ++ [Settle 0 false]) freshPage))
  = 1%nat.
Proof.
  assert (H : idle freshPage) by (unfold idle; cbn; auto).
  split; [ exact H | ].
  destruct (addToCart_failure_then_retry freshPage 1 H) as (_ & _ & _ & _ & S & _);
    [ lia | exact S ].
Defined.

(** ** The shipping form *)

Lemma trimStart_empty (s : string) : trimStart s = ""%string <-> hasInk s = false.
Proof.
  induction s as [ | c s IH ]; cbn; [ tauto | ].
  destruct (isSpace c); cbn; [ exact IH | ].
  split; discriminate.
Qed.

Lemma trimEnd_empty (s : string) : trimEnd s = ""%string <-> hasInk s = false.
Proof.
  induction s as [ | c s IH ]; cbn; [ tauto | ].
  destruct (trimEnd s) as [ | d t ] eqn:E.
  - destruct (isSpace c); cbn.
    + rewrite <- IH. tauto.
    + split; discriminate.
  - split; [ discriminate | ].
    intros H. apply orb_false_iff in H. destruct H as [_ H].
    apply IH in H. discriminate H.
Qed.

Lemma trimStart_ink (s : string) : hasInk (trimStart s) = hasInk s.
Proof.
  induction s as [ | c s IH ]; cbn; [ reflexivity | ].
  destruct (isSpace c) eqn:E; cbn; [ exact IH | rewrite E; reflexivity ].
Qed.

Lemma blank_iff (s : string) : blank s = true <-> hasInk s = false.
Proof.
  unfold blank, trim. rewrite String.eqb_eq, trimEnd_empty, trimStart_ink. tauto.
Qed.

Lemma not_blank_iff (s : string) : blank s = false <-> hasInk s = true.
Proof.
  pose proof (blank_iff s) as H.
  destruct (blank s), (hasInk s); intuition congruence.
Qed.



(** ** Orders in flight *)

Lemma orderStep_price (p : OrderPage) (e : OrderEvent) :
  o_price (orderStep p e) = o_price p /\
  o_authenticated (orderStep p e) = o_authenticated p /\
  o_productReady (orderStep p e) = o_productReady p.
Proof.
  destruct p as [a r st pr sh f op cs fl]. destruct e as [ | | | sh' | i err ]; cbn.
  - destruct f; cbn; auto. unfold openShippingForOrder. cbn.
    destruct a, r; cbn; auto.
  - destruct op; cbn; auto. unfold submitOrderNow. cbn.
    destruct r; cbn; auto.
    destruct (blank (customerName sh)); cbn; auto.
    destruct (blank (customerPhone sh)); cbn; auto.
    destruct (blank (region sh)); cbn; auto.
    destruct (blank (address sh)); cbn; auto.
    destruct f; cbn; auto. destruct st; cbn; auto.
  - destruct f; cbn; auto.
  - destruct op; cbn; auto.
  - unfold settleOrder. cbn. destruct (nth_error fl i) as [ t | ]; cbn; auto.
    destruct err; cbn; auto. destruct (ot_at t); cbn; auto.
Qed.

Lemma orderStep_ok (p : OrderPage) (e : OrderEvent) :
  orderOk p -> orderOk (orderStep p e).
Proof.
  intros (C & T & G). destruct p as [a r st pr sh f op cs fl].
  unfold orderOk in *. cbn in C, T, G.
  destruct e as [ | | | sh' | i err ]; cbn.
  - destruct f; cbn; [ auto | ]. unfold openShippingForOrder. cbn.
    destruct G as [[_ ->] | [F _]]; [ | discriminate F ].
    destruct a, r; cbn; conjs; auto; apply Forall_app; split; auto;
      repeat constructor.
  - destruct op; cbn; [ | auto ]. unfold submitOrderNow. cbn.
    destruct r; cbn;
      [ | conjs; auto; apply Forall_app; split; auto; repeat constructor ].
    destruct (blank (customerName sh)) eqn:B1; cbn;
      [ conjs; auto; apply Forall_app; split; auto; repeat constructor | ].
    destruct (blank (customerPhone sh)) eqn:B2; cbn;
      [ conjs; auto; apply Forall_app; split; auto; repeat constructor | ].
    destruct (blank (region sh)) eqn:B3; cbn;
      [ conjs; auto; apply Forall_app; split; auto; repeat constructor | ].
    destruct (blank (address sh)) eqn:B4; cbn;
      [ conjs; auto; apply Forall_app; split; auto; repeat constructor | ].
    apply not_blank_iff in B1, B2, B3, B4.
    destruct f; cbn; [ auto | ].
    destruct G as [[_ ->] | [F _]]; [ | discriminate F ].
    destruct st; cbn.
    + conjs.
      * apply Forall_app; split; auto; repeat constructor.
      * constructor; [ | constructor ]. unfold taskOk, filled. cbn. auto.
      * right. conjs; auto. eexists. reflexivity.
    + conjs; auto. apply Forall_app; split; auto; repeat constructor.
  - destruct f; cbn; [ auto | ].
    destruct G as [[_ ->] | [F _]]; [ | discriminate F ]. auto.
  - destruct op; cbn; auto.
  - unfold settleOrder. cbn.
    destruct G as [[-> ->] | (-> & -> & t & ->)].
    + destruct i; cbn; auto.
    + inversion T as [ | t' l' [Tf Tp] _ ]; subst.
      destruct i as [ | i ]; cbn; [ | destruct i; cbn; conjs; auto;
                                      right; conjs; auto; eexists; reflexivity ].
      destruct err as [ msg | ]; cbn.
      * conjs; auto. apply Forall_app; split; auto; repeat constructor.
      * destruct (ot_at t); cbn.
        -- conjs.
           ++ apply Forall_app; split; auto; repeat constructor.
           ++ constructor; [ split; [ exact Tf | reflexivity ] | constructor ].
           ++ right. conjs; auto. eexists. reflexivity.
        -- conjs.
           ++ apply Forall_app; split; auto.
              constructor; [ | constructor ]. cbn.
              split; [ exact Tf | ]. split; [ reflexivity | ].
              split; [ reflexivity | ]. apply Qmult_1_r.
           ++ constructor; [ split; [ exact Tf | reflexivity ] | constructor ].
           ++ right. conjs; auto. eexists. reflexivity.
        -- conjs; auto. apply Forall_app; split; auto; repeat constructor.
Qed.

Lemma orderRun_ok (es : list OrderEvent) :
  forall p, orderOk p ->
            orderOk (orderRun es p) /\ o_price (orderRun es p) = o_price p.
Proof.
  induction es as [ | e es IH ]; intros p H; [ auto | ].
  change (orderRun (e :: es) p) with (orderRun es (orderStep p e)).
  destruct (IH (orderStep p e) (orderStep_ok p e H)) as [H1 H2].
  split; [ exact H1 | ]. rewrite H2. apply orderStep_price.
Qed.

Lemma orderStart_ok (auth ready stage : bool) (price : Q) :
  orderOk (orderStart auth ready stage price).
Proof. unfold orderOk, orderStart. cbn. conjs; auto. Qed.

(** Whatever the user and the server do after the designer has opened:
    every order that is posted carries a name, a phone, a region and an
    address that each have a character other than white space, a quantity
    of 1 and a total price equal to the price of the variant; at most one
    order is in flight, isOrdering is set exactly while one is, and the
    shipping form stays open as long as it is. *)
Theorem orders_posted_are_valid (auth ready stage : bool) (price : Q)
    (es : list OrderEvent) :
  (forall sh totalPrice quantity pr,
     In (OCreateOrder sh totalPrice quantity pr)
        (o_calls (orderRun es (orderStart auth ready stage price))) ->
     filled sh /\ quantity == 1 /\ pr = price /\ totalPrice == price) /\
  (List.length (o_inflight (orderRun es (orderStart auth ready stage price))) <= 1)%nat /\
  (isOrdering (orderRun es (orderStart auth ready stage price)) = true <->
   o_inflight (orderRun es (orderStart auth ready stage price)) <> []) /\
  (isOrdering (orderRun es (orderStart auth ready stage price)) = true ->
   isShippingOpen (orderRun es (orderStart auth ready stage price)) = true).
Proof.
  destruct (orderRun_ok es _ (orderStart_ok auth ready stage price))
    as [(C & T & G) P]. cbn in P.
  split; [ | split; [ | split ] ].
  - intros sh totalPrice quantity pr Hin.
    rewrite P in C. apply Forall_forall with (x := OCreateOrder sh totalPrice quantity pr) in C;
      [ exact C | exact Hin ].
  - destruct G as [[_ ->] | (_ & _ & t & ->)]; cbn; lia.
  - destruct G as [[-> ->] | (-> & _ & t & ->)]; split; congruence.
  - destruct G as [[-> _] | (_ & -> & _)]; [ discriminate | reflexivity ].
Qed.

Lemma orders_posted_are_valid_witness :
  In (OCreateOrder shippingAli (120000 * 1) 1 120000)
     (o_calls (orderRun (orderPlaced shippingAli) (orderStart true true true 120000))) /\
  filled shippingAli /\ 120000 * 1 == 120000.
Proof.
  assert (H : In (OCreateOrder shippingAli (120000 * 1) 1 120000)
                (o_calls (orderRun (orderPlaced shippingAli)
                            (orderStart true true true 120000))))
    by (right; right; left; reflexivity).
  split; [ exact H | ].
  destruct (proj1 (orders_posted_are_valid true true true 120000
                     (orderPlaced shippingAli)) _ _ _ _ H) as (F & _ & _ & T).
  split; [ exact F | exact T ].
Defined.



(** ** The order form and the sign-in *)




(** ** The sign-in dialog *)

Lemma modalRun_from (K : Type) (es : list (ModalEvent K)) :
  forall m : AuthModal K,
    (m_isOpen m = false ->
     m_onAuthed m = None /\ m_title m = None /\ m_description m = None) ->
    m_onAuthed (fold_left modalStep es m) = pendingFrom (m_onAuthed m) es /\
    (m_isOpen (fold_left modalStep es m) = false ->
     m_onAuthed (fold_left modalStep es m) = None /\
     m_title (fold_left modalStep es m) = None /\
     m_description (fold_left modalStep es m) = None).
Proof.
  induction es as [ | e es IH ]; intros m Hm; [ auto | ].
  cbn [fold_left pendingFrom].
  destruct e as [ [ o | ] | | t ]; cbn [modalStep].
  - apply (IH (modalOpen (Some o) m)). cbn. discriminate.
  - apply (IH (modalOpen None m)). cbn. discriminate.
  - apply (IH (modalClose m)). cbn. auto.
  - apply (IH (modalSetTab t m)). exact Hm.
Qed.

(** The dialog holds one continuation: the onAuthed of the last open that
    no close has followed; an open replaces whatever an earlier open had
    stored, a close drops it, a change of tab keeps it; and a closed dialog
    never holds a continuation, a title or a description. *)
Theorem modal_holds_one_continuation (K : Type) (es : list (ModalEvent K)) :
  m_onAuthed (modalRun es) = pendingFrom None es /\
  (m_isOpen (modalRun es) = false ->
   m_onAuthed (modalRun es) = None /\ m_title (modalRun es) = None /\
   m_description (modalRun es) = None) /\
  (forall opts opts' (m : AuthModal K),
     modalOpen opts (modalOpen opts' m) = modalOpen opts modalInit /\
     modalClose (modalOpen opts m) = modalInit /\
     m_onAuthed (modalSetTab TabRegister (modalOpen opts m))
     = m_onAuthed (modalOpen opts m)).
Proof.
  destruct (modalRun_from K es modalInit) as [H1 H2]; [ cbn; auto | ].
  split; [ exact H1 | split; [ exact H2 | ] ].
  intros opts opts' m. conjs; reflexivity.
Qed.

Lemma modal_holds_one_continuation_witness :
  m_isOpen (modalRun [MOpen (Some (mkOpenOptions (Some TabLogin) None None (Some 1%nat)));
                      MClose]) = false /\
  m_onAuthed (modalRun [MOpen (Some (mkOpenOptions (Some TabLogin) None None (Some 1%nat)));
                        MClose]) = None.
Proof.
  split; [ reflexivity | ].
  exact (proj1 (proj1 (proj2 (modal_holds_one_continuation nat
           [MOpen (Some (mkOpenOptions (Some TabLogin) None None (Some 1%nat))); MClose]))
           eq_refl)).
Defined.

(** ** Errors of the API client *)

Lemma orElse_nonempty (a b : string) : b <> ""%string -> orElse a b <> ""%string.
Proof.
  intros H. unfold orElse. destruct (String.eqb_spec a ""); assumption.
Qed.

(** A normalized error always has a message: the one of the body of the
    response when it has one (the members of an array joined by ", "),
    else the one of the HTTP library, else "Request failed"; the status is
    the one of the response; what is not an error of the HTTP library
    becomes "Unknown error" without a status. *)
Theorem normalizeError_has_message (err : Failure) :
  ace_message (normalizeError err) <> ""%string /\
  (forall status body message,
     err = AxiosError status body message ->
     ace_status (normalizeError err) = status /\
     (forall s, body = Some (MsgString s) -> s <> ""%string ->
                ace_message (normalizeError err) = s) /\
     (forall l, body = Some (MsgArray l) -> String.concat ", " l <> ""%string ->
                ace_message (normalizeError err) = String.concat ", " l) /\
     ((body = None \/ body = Some MsgMissing \/ body = Some (MsgString "") \/
       body = Some (MsgArray [])) ->
      ace_message (normalizeError err) = orElse message "Request failed")) /\
  (forall e, err = ClientError e \/ err = OtherError ->
             normalizeError err = mkApiClientError "Unknown error" None).
Proof.
  split; [ | split ].
  - destruct err as [ status body message | e | ]; cbn; try discriminate.
    apply orElse_nonempty. apply orElse_nonempty. discriminate.
  - intros status body message ->. cbn. split; [ reflexivity | ].
    split; [ | split ].
    + intros s -> Hs. unfold orElse at 1.
      destruct (String.eqb_spec s ""); [ contradiction | reflexivity ].
    + intros l -> Hl. unfold orElse at 1.
      destruct (String.eqb_spec (String.concat ", " l) "");
        [ contradiction | reflexivity ].
    + intros [-> | [-> | [-> | ->]]]; reflexivity.
  - intros e [-> | ->]; reflexivity.
Qed.

Lemma normalizeError_has_message_witness :
  ace_message (normalizeError
                 (AxiosError (Some 400%Z)
                    (Some (MsgArray ["email must be an email"%string;
                                     "password is too short"%string]))
                    "Request failed with status code 400"))
  = "email must be an email, password is too short"%string.
Proof.
  refine (proj1 (proj2 (proj2 (proj1 (proj2 (normalizeError_has_message _))
            (Some 400%Z)
            (Some (MsgArray ["email must be an email"%string;
                                     "password is too short"%string]))
            "Request failed with status code 400"%string eq_refl))) _ eq_refl _).
  discriminate.
Defined.

(** The message of the server does not reach the callers of apiGet,
    apiPost, apiPatch and apiDelete: the response interceptor has
    normalized the failure already, the wrapper normalizes the result once
    more, and what it throws is "Unknown error" without a status, whatever
    the failure was. *)
Theorem api_wrappers_throw_unknown_error (err : Failure) :
  apiThrows err = mkApiClientError "Unknown error" None /\
  (forall status s message,
     s <> ""%string ->
     ace_message (normalizeError (AxiosError status (Some (MsgString s)) message)) = s /\
     ace_message (apiThrows (AxiosError status (Some (MsgString s)) message))
     = "Unknown error"%string).
Proof.
  split; [ reflexivity | ].
  intros status s message Hs. split; [ | reflexivity ].
  cbn. unfold orElse at 1.
  destruct (String.eqb_spec s ""); [ contradiction | reflexivity ].
Qed.

Lemma api_wrappers_throw_unknown_error_witness :
  ace_message (normalizeError (AxiosError (Some 413%Z)
                                 (Some (MsgString "File too large")) "Request failed"))
  = "File too large"%string /\
  ace_message (apiThrows (AxiosError (Some 413%Z)
                            (Some (MsgString "File too large")) "Request failed"))
  = "Unknown error"%string.
Proof.
  refine (proj2 (api_wrappers_throw_unknown_error OtherError)
            (Some 413%Z) "File too large"%string "Request failed"%string _).
  discriminate.
Defined.

(** ** From the catalogue to the designer *)

(** The designer, opened with the variantId that the catalogue puts in
    its link, works on the variant whose mockup the catalogue showed: the
    first variant of the product, or none when the product has no
    variant. *)
Theorem designer_opens_catalogue_variant (product : Product) :
  pickVariant product (designLinkVariantId (pickDefaultVariant product))
  = pickDefaultVariant product.
Proof.
  unfold pickVariant, pickDefaultVariant, designLinkVariantId.
  destruct (variantsOf product) as [ | first rest ]; [ reflexivity | ].
  destruct (Z.eqb_spec (v_id first) 0) as [E | N]; [ reflexivity | ].
  destruct (Z.eqb_spec (v_id first) 0); [ contradiction | ].
  cbn. rewrite Z.eqb_refl. reflexivity.
Qed.

(** ** Refreshing the access token *)

Lemma answersTo_app (id : nat) (l l' : list ClientAction) :
  answersTo id (l ++ l') = (answersTo id l + answersTo id l')%nat.
Proof. unfold answersTo. rewrite filter_app, length_app. reflexivity. Qed.

Lemma refreshCalls_app (l l' : list ClientAction) :
  refreshCalls (l ++ l') = (refreshCalls l + refreshCalls l')%nat.
Proof. unfold refreshCalls. rewrite filter_app, length_app. reflexivity. Qed.

Lemma queuedOf_snoc (id : nat) (l : list Request) (r : Request) :
  queuedOf id (l ++ [r])
  = (queuedOf id l + if (rq_id r =? id)%nat then 1 else 0)%nat.
Proof.
  unfold queuedOf. rewrite filter_app, length_app. cbn.
  destruct (rq_id r =? id)%nat; reflexivity.
Qed.

Lemma answersTo_reject (id : nat) (l : list ClientAction) (r : Request) :
  answersTo id (l ++ [AReject r])
  = (answersTo id l + if (rq_id r =? id)%nat then 1 else 0)%nat.
Proof.
  rewrite answersTo_app. unfold answersTo at 2. cbn.
  destruct (rq_id r =? id)%nat; reflexivity.
Qed.

Lemma answersTo_retry (id : nat) (l : list ClientAction) (r : Request) (t : string) :
  answersTo id (l ++ [ARetry r t])
  = (answersTo id l + if (rq_id r =? id)%nat then 1 else 0)%nat.
Proof.
  rewrite answersTo_app. unfold answersTo at 2. cbn.
  destruct (rq_id r =? id)%nat; reflexivity.
Qed.

Lemma answersTo_refresh (id : nat) (l : list ClientAction) (t : string) :
  answersTo id (l ++ [ARefresh t]) = answersTo id l.
Proof. rewrite answersTo_app. unfold answersTo at 2. cbn. lia. Qed.

Lemma refreshCalls_reject (l : list ClientAction) (r : Request) :
  refreshCalls (l ++ [AReject r]) = refreshCalls l.
Proof. rewrite refreshCalls_app. unfold refreshCalls at 2. cbn. lia. Qed.

Lemma refreshCalls_retry (l : list ClientAction) (r : Request) (t : string) :
  refreshCalls (l ++ [ARetry r t]) = refreshCalls l.
Proof. rewrite refreshCalls_app. unfold refreshCalls at 2. cbn. lia. Qed.

Lemma refreshCalls_refresh (l : list ClientAction) (t : string) :
  refreshCalls (l ++ [ARefresh t]) = S (refreshCalls l).
Proof. rewrite refreshCalls_app. unfold refreshCalls at 2. cbn. lia. Qed.

(** The answers that [resolveRefreshQueue] gives: one to every request of
    the queue, and no call of the refresh end point. *)
Lemma resolveRefreshQueue_counts (id : nat) (token : option string) (c : Client) :
  answersTo id (actions (resolveRefreshQueue token c))
  = (answersTo id (actions c) + queuedOf id (refreshQueue c))%nat /\
  refreshCalls (actions (resolveRefreshQueue token c)) = refreshCalls (actions c) /\
  refreshQueue (resolveRefreshQueue token c) = [] /\
  isRefreshing (resolveRefreshQueue token c) = isRefreshing c /\
  refresher (resolveRefreshQueue token c) = refresher c.
Proof.
  unfold resolveRefreshQueue. cbn [actions refreshQueue isRefreshing refresher].
  rewrite answersTo_app, refreshCalls_app.
  assert (X : answersTo id (map (fun r => match truthy token with
                                         | None => AReject r
                                         | Some t => ARetry r t
                                         end) (refreshQueue c))
              = queuedOf id (refreshQueue c) /\
              refreshCalls (map (fun r => match truthy token with
                                         | None => AReject r
                                         | Some t => ARetry r t
                                         end) (refreshQueue c)) = O).
  { unfold answersTo, queuedOf, refreshCalls.
    induction (refreshQueue c) as [ | r q [IH1 IH2] ]; [ split; reflexivity | ].
    cbn. destruct (truthy token); cbn; destruct (rq_id r =? id)%nat; cbn;
      rewrite ?IH1; auto. }
  destruct X as [-> ->]. repeat split; lia.
Qed.

(** What one event adds to the counts of the request [id], and to the
    calls of the refresh end point. *)
Lemma clientStep_counts (id : nat) (c : Client) (e : ClientEvent) :
  refreshFlag c ->
  refreshFlag (clientStep c e) /\
  (answersTo id (actions (clientStep c e)) + queuedOf id (refreshQueue (clientStep c e))
   + refreshingFor id (clientStep c e)
   = answersTo id (actions c) + queuedOf id (refreshQueue c) + refreshingFor id c
     + got401s id [e])%nat /\
  (refreshCalls (actions (clientStep c e)) + awaitingRefresh c
   <= refreshCalls (actions c) + awaitingRefresh (clientStep c e)
      + refreshAnswers [e])%nat.
Proof.
  intros F. unfold refreshFlag in *.
  destruct e as [ r | res | ]; cbn [clientStep got401s refreshAnswers].
  - unfold on401. destruct (refreshable r); cbn [negb].
    + destruct (isRefreshing c) eqn:Fl.
      * assert (W : refresher c <> None) by (apply F; reflexivity).
        cbn [isRefreshing refreshQueue actions refresher].
        rewrite queuedOf_snoc. unfold refreshingFor, awaitingRefresh.
        cbn [refresher].
        destruct (refresher c) as [ [r' [ | | ]] | ];
          try destruct (rq_id r' =? rq_id r)%nat;
          (split; [ split; [ discriminate | reflexivity ] | split; lia ]) ||
          (exfalso; apply W; reflexivity).
      * assert (W : refresher c = None).
        { destruct (refresher c); [ | reflexivity ].
          assert (X : false = true) by (apply F; discriminate). discriminate X. }
        unfold refreshingFor, awaitingRefresh. rewrite W.
        destruct (truthy (refreshCookie c)) as [ rt | ].
        -- unfold setRefreshing, act.
           cbn [isRefreshing refreshQueue actions refresher].
           rewrite answersTo_refresh, refreshCalls_refresh.
           split; [ split; [ discriminate | reflexivity ] | ].
           destruct (rq_id r =? id)%nat; split; lia.
        -- destruct (resolveRefreshQueue_counts id None c) as (A & B & Q & _ & _).
           unfold setRefreshing, act.
           cbn [isRefreshing refreshQueue actions refresher].
           rewrite answersTo_reject, refreshCalls_reject, A, B, Q.
           split; [ split; [ discriminate | congruence ] | ].
           change (queuedOf id []) with O.
           destruct (rq_id r =? id)%nat; split; lia.
    + unfold act. cbn [isRefreshing refreshQueue actions refresher].
      split; [ exact F | ].
      rewrite answersTo_reject, refreshCalls_reject.
      unfold refreshingFor, awaitingRefresh. cbn [refresher].
      destruct (rq_id r =? id)%nat; split; lia.
  - unfold onRefreshAnswer.
    unfold refreshingFor at 2. unfold awaitingRefresh at 1.
    destruct (refresher c) as [ [r [ | | ]] | ] eqn:W;
      try (split; [ rewrite W; exact F
                 | unfold refreshingFor, awaitingRefresh; rewrite W; split; lia ]).
    set (newToken := match res with RefreshOk t => truthy t | RefreshFailed => None end).
    set (c1 := match res, newToken with
               | RefreshFailed, _ => setCookies None None c
               | _, Some t => setCookies (Some t) (refreshCookie c) c
               | _, None => c
               end).
    assert (E : actions c1 = actions c /\ refreshQueue c1 = refreshQueue c).
    { unfold c1. destruct res, newToken; split; reflexivity. }
    destruct E as [E1 E2].
    destruct (resolveRefreshQueue_counts id newToken c1) as (A & B & Q & _ & _).
    rewrite E1, E2 in A. rewrite E1 in B.
    destruct newToken as [ tok | ]; unfold setRefreshing, act;
      cbn [isRefreshing refreshQueue actions refresher];
      unfold refreshingFor, awaitingRefresh; cbn [refresher];
      rewrite ?answersTo_reject, ?refreshCalls_reject,
              ?answersTo_retry, ?refreshCalls_retry, A, B, Q;
      (split; [ split; [ discriminate | congruence || reflexivity ] | ]);
      change (queuedOf id []) with O;
      destruct (rq_id r =? id)%nat; split; lia.
  - unfold onRetryAnswer.
    unfold refreshingFor at 2. unfold awaitingRefresh at 1.
    destruct (refresher c) as [ [r [ | | ]] | ] eqn:W;
      try (split; [ rewrite W; exact F
                 | unfold refreshingFor, awaitingRefresh; rewrite W; split; lia ]).
    unfold setRefreshing. cbn [isRefreshing refreshQueue actions refresher].
    unfold refreshingFor, awaitingRefresh. cbn [refresher].
    split; [ split; [ discriminate | congruence ] | split; lia ].
Qed.

Lemma got401s_cons (id : nat) (e : ClientEvent) (es : list ClientEvent) :
  got401s id (e :: es) = (got401s id [e] + got401s id es)%nat.
Proof. destruct e; cbn; lia. Qed.

Lemma refreshAnswers_cons (e : ClientEvent) (es : list ClientEvent) :
  refreshAnswers (e :: es) = (refreshAnswers [e] + refreshAnswers es)%nat.
Proof. destruct e; cbn; lia. Qed.

Lemma clientRun_counts (id : nat) (es : list ClientEvent) :
  forall c : Client,
    refreshFlag c ->
    refreshFlag (clientRun es c) /\
    (answersTo id (actions (clientRun es c)) + queuedOf id (refreshQueue (clientRun es c))
     + refreshingFor id (clientRun es c)
     = answersTo id (actions c) + queuedOf id (refreshQueue c) + refreshingFor id c
       + got401s id es)%nat /\
    (refreshCalls (actions (clientRun es c)) + awaitingRefresh c
     <= refreshCalls (actions c) + awaitingRefresh (clientRun es c)
        + refreshAnswers es)%nat.
Proof.
  induction es as [ | e es IH ]; intros c F.
  - cbn. split; [ exact F | split; lia ].
  - change (clientRun (e :: es) c) with (clientRun es (clientStep c e)).
    destruct (clientStep_counts id c e F) as (F1 & A1 & R1).
    destruct (IH _ F1) as (F2 & A2 & R2).
    rewrite (got401s_cons id e es), (refreshAnswers_cons e es).
    split; [ exact F2 | split; lia ].
Qed.

Lemma awaitingRefresh_le_1 (c : Client) : (awaitingRefresh c <= 1)%nat.
Proof.
  unfold awaitingRefresh. destruct (refresher c) as [ [r [ | | ]] | ]; lia.
Qed.

(** X21.  Whatever 401 responses arrive and however the refresh end point
    and the retries answer, from a freshly loaded client: every 401 of a
    request has got exactly one answer (its retry or its rejection), or
    the request waits in the queue, or it is the request whose interceptor
    awaits the refresh end point; the refresh end point is called at most
    once more than it has answered, so never twice at a time; and
    isRefreshing is set exactly while one invocation of the interceptor
    refreshes. *)
Theorem refresh_accounts_for_every_401 (access refresh : option string)
    (es : list ClientEvent) (id : nat) :
  got401s id es
  = (answersTo id (actions (clientRun es (clientInit access refresh)))
     + queuedOf id (refreshQueue (clientRun es (clientInit access refresh)))
     + refreshingFor id (clientRun es (clientInit access refresh)))%nat /\
  (refreshCalls (actions (clientRun es (clientInit access refresh)))
   <= refreshAnswers es
      + awaitingRefresh (clientRun es (clientInit access refresh)))%nat /\
  (refreshCalls (actions (clientRun es (clientInit access refresh)))
   <= refreshAnswers es + 1)%nat /\
  (isRefreshing (clientRun es (clientInit access refresh)) = true <->
   refresher (clientRun es (clientInit access refresh)) <> None).
Proof.
  assert (F : refreshFlag (clientInit access refresh)).
  { unfold refreshFlag. cbn. split; [ discriminate | congruence ]. }
  destruct (clientRun_counts id es _ F) as (F' & A & R).
  pose proof (awaitingRefresh_le_1 (clientRun es (clientInit access refresh))) as L.
  cbn in A, R. change (queuedOf id []) with O in A.
  change (answersTo id []) with O in A. change (refreshCalls []) with O in R.
  split; [ lia | split; [ lia | split; [ lia | exact F' ] ] ].
Qed.

(** Where the retries and the queue entries of a run come from. *)
Lemma clientStep_origin (c : Client) (e : ClientEvent) :
  (forall r t, In (ARetry r t) (actions (clientStep c e)) ->
     In (ARetry r t) (actions c) \/
     (e = RefreshAnswer (RefreshOk (Some t)) /\ t <> ""%string /\
      (In r (refreshQueue c) \/ exists st, refresher c = Some (r, st)))) /\
  (forall r, In r (refreshQueue (clientStep c e)) ->
     In r (refreshQueue c) \/ e = Got401 r) /\
  (forall r st, refresher (clientStep c e) = Some (r, st) ->
     (exists st', refresher c = Some (r, st')) \/ e = Got401 r).
Proof.
  destruct e as [ q | res | ]; cbn [clientStep].
  - unfold on401. destruct (refreshable q); cbn [negb].
    + destruct (isRefreshing c).
      * cbn [actions refreshQueue refresher]. split; [ auto | split ].
        -- intros r Hin. apply in_app_or in Hin. destruct Hin as [H | [-> | []]]; auto.
        -- intros r st. destruct (refresher c) as [ [r' [ | | ]] | ];
             try destruct (rq_id r' =? rq_id q)%nat; intros E;
             inversion E; subst; left; eexists; reflexivity.
      * destruct (truthy (refreshCookie c)) as [ rt | ];
          unfold setRefreshing, act, resolveRefreshQueue;
          cbn [actions refreshQueue refresher isRefreshing truthy].
        -- split; [ | split ].
           ++ intros r t Hin. apply in_app_or in Hin.
              destruct Hin as [H | [H | []]]; [ auto | discriminate H ].
           ++ auto.
           ++ intros r st E. inversion E; subst. auto.
        -- split; [ | split ].
           ++ intros r t Hin. apply in_app_or in Hin.
              destruct Hin as [H | [H | []]]; [ | discriminate H ].
              apply in_app_or in H. destruct H as [H | H]; [ auto | ].
              apply in_map_iff in H. destruct H as (x & H & _). discriminate H.
           ++ intros r [].
           ++ intros r st E. discriminate E.
    + unfold act. cbn [actions refreshQueue refresher].
      split; [ | split; [ auto | intros r st E; left; exists st; exact E ] ].
      intros r t Hin. apply in_app_or in Hin.
      destruct Hin as [H | [H | []]]; [ auto | discriminate H ].
  - unfold onRefreshAnswer.
    destruct (refresher c) as [ [q [ | | ]] | ] eqn:W;
      try (split; [ auto | split; [ auto | intros r st E; left; exists st;
                                              congruence ] ]);
      try (split; [ auto | split; [ auto | intros r st E; discriminate E ] ]).
    set (newToken := match res with RefreshOk t => truthy t | RefreshFailed => None end).
    assert (N : forall t, newToken = Some t ->
                          res = RefreshOk (Some t) /\ t <> ""%string).
    { unfold newToken. intros t E. destruct res as [ o | ]; [ | discriminate E ].
      apply truthy_some in E. destruct E as [-> E]. auto. }
    set (c1 := match res, newToken with
               | RefreshFailed, _ => setCookies None None c
               | _, Some t => setCookies (Some t) (refreshCookie c) c
               | _, None => c
               end).
    assert (E : actions c1 = actions c /\ refreshQueue c1 = refreshQueue c).
    { unfold c1. destruct res, newToken; split; reflexivity. }
    destruct E as [E1 E2].
    destruct newToken as [ tok | ] eqn:T;
      unfold setRefreshing, act, resolveRefreshQueue;
      cbn [actions refreshQueue refresher isRefreshing]; rewrite E1, E2.
    + destruct (N tok eq_refl) as [-> Tn].
      assert (T' : truthy (Some tok) = Some tok)
        by (apply truthy_some; auto).
      rewrite T'. split; [ | split ].
      * intros r t Hin. apply in_app_or in Hin. destruct Hin as [H | [H | []]].
        -- apply in_app_or in H. destruct H as [H | H]; [ auto | ].
           apply in_map_iff in H. destruct H as (x & H & Hx).
           inversion H; subst. right. auto.
        -- inversion H; subst. right. split; [ reflexivity | split; [ exact Tn | ] ].
           right. eexists. reflexivity.
      * intros r [].
      * intros r st E. inversion E; subst. left. eexists. reflexivity.
    + cbn [truthy]. split; [ | split ].
      * intros r t Hin. apply in_app_or in Hin.
        destruct Hin as [H | [H | []]]; [ | discriminate H ].
        apply in_app_or in H. destruct H as [H | H]; [ auto | ].
        apply in_map_iff in H. destruct H as (x & H & _). discriminate H.
      * intros r [].
      * intros r st E. discriminate E.
  - unfold onRetryAnswer.
    destruct (refresher c) as [ [q [ | | ]] | ] eqn:W;
      try (split; [ auto | split; [ auto | intros r st E; left; exists st;
                                              congruence ] ]);
      try (split; [ auto | split; [ auto | intros r st E; discriminate E ] ]).
Qed.

Lemma clientRun_origin (es : list ClientEvent) :
  forall c : Client,
    (forall r t, In (ARetry r t) (actions (clientRun es c)) ->
       In (ARetry r t) (actions c) \/
       (In (RefreshAnswer (RefreshOk (Some t))) es /\ t <> ""%string /\
        (In (Got401 r) es \/ In r (refreshQueue c) \/
         exists st, refresher c = Some (r, st)))) /\
    (forall r, In r (refreshQueue (clientRun es c)) ->
       In r (refreshQueue c) \/ In (Got401 r) es) /\
    (forall r st, refresher (clientRun es c) = Some (r, st) ->
       (exists st', refresher c = Some (r, st')) \/ In (Got401 r) es).
Proof.
  induction es as [ | e es IH ]; intros c.
  - cbn. split; [ auto | split; [ auto | ] ]. intros r st E. left. eauto.
  - change (clientRun (e :: es) c) with (clientRun es (clientStep c e)).
    destruct (IH (clientStep c e)) as (A & Q & W).
    destruct (clientStep_origin c e) as (A1 & Q1 & W1).
    split; [ | split ].
    + intros r t Hin. destruct (A r t Hin) as [H | (H1 & H2 & H3)].
      * destruct (A1 r t H) as [H' | (-> & H2 & H3)]; [ auto | ].
        right. split; [ left; reflexivity | split; [ exact H2 | ] ].
        right. exact H3.
      * right. split; [ right; exact H1 | split; [ exact H2 | ] ].
        destruct H3 as [H3 | [H3 | (st & H3)]].
        -- left. right. exact H3.
        -- destruct (Q1 r H3) as [H | ->]; [ auto | left; left; reflexivity ].
        -- destruct (W1 r st H3) as [H | ->]; [ auto | left; left; reflexivity ].
    + intros r Hin. destruct (Q r Hin) as [H | H]; [ | right; right; exact H ].
      destruct (Q1 r H) as [H' | ->]; [ auto | right; left; reflexivity ].
    + intros r st E. destruct (W r st E) as [(st' & H) | H];
        [ | right; right; exact H ].
      destruct (W1 r st' H) as [H' | ->]; [ auto | right; left; reflexivity ].
Qed.

(** X22.  A request is sent again only after it got a 401, and only with
    an access token that the refresh end point has returned: never with
    the token of the cookie it failed with, and never with an empty one. *)
Theorem retry_carries_a_refreshed_token (access refresh : option string)
    (es : list ClientEvent) (r : Request) (t : string) :
  In (ARetry r t) (actions (clientRun es (clientInit access refresh))) ->
  In (Got401 r) es /\
  In (RefreshAnswer (RefreshOk (Some t))) es /\
  t <> ""%string.
Proof.
  intros Hin.
  destruct (clientRun_origin es (clientInit access refresh)) as (A & _ & _).
  destruct (A r t Hin) as [[] | (H1 & H2 & [H3 | [[] | (st & H3)]])].
  - auto.
  - discriminate H3.
Qed.

Lemma retry_carries_a_refreshed_token_witness :
  In (ARetry (mkRequest 1 "/cart" false) "new")
     (actions (clientRun [Got401 (mkRequest 1 "/cart" false);
                          RefreshAnswer (RefreshOk (Some "new"%string))]
                         (clientInit (Some "old"%string) (Some "refresh"%string)))) /\
  In (Got401 (mkRequest 1 "/cart" false))
     [Got401 (mkRequest 1 "/cart" false);
      RefreshAnswer (RefreshOk (Some "new"%string))] /\
  In (RefreshAnswer (RefreshOk (Some "new"%string)))
     [Got401 (mkRequest 1 "/cart" false);
      RefreshAnswer (RefreshOk (Some "new"%string))] /\
  "new"%string <> ""%string.
Proof.
  assert (H : In (ARetry (mkRequest 1 "/cart" false) "new")
     (actions (clientRun [Got401 (mkRequest 1 "/cart" false);
                          RefreshAnswer (RefreshOk (Some "new"%string))]
                         (clientInit (Some "old"%string) (Some "refresh"%string)))))
    by (vm_compute; right; left; reflexivity).
  split; [ exact H | ].
  exact (retry_carries_a_refreshed_token (Some "old"%string) (Some "refresh"%string)
           _ _ _ H).
Defined.

(** Once the interceptor that refreshes waits in the queue, no event
    wakes it. *)
Lemma clientStep_blocked (c : Client) (e : ClientEvent) (r : Request) :
  refresher c = Some (r, WaitQueue) -> isRefreshing c = true ->
  refresher (clientStep c e) = Some (r, WaitQueue) /\
  isRefreshing (clientStep c e) = true /\
  (exists more, refreshQueue (clientStep c e) = refreshQueue c ++ more) /\
  (exists acts, actions (clientStep c e) = actions c ++ acts /\
                Forall (fun a => exists q, a = AReject q /\ refreshable q = false) acts).
Proof.
  intros W Fl. destruct e as [ q | res | ]; cbn [clientStep].
  - unfold on401. rewrite Fl, W. destruct (refreshable q) eqn:Rq; cbn [negb].
    + cbn [actions refreshQueue refresher isRefreshing].
      split; [ reflexivity | split; [ reflexivity | split ] ].
      * eexists. reflexivity.
      * exists []. rewrite List.app_nil_r. split; [ reflexivity | constructor ].
    + unfold act. cbn [actions refreshQueue refresher isRefreshing].
      split; [ exact W | split; [ exact Fl | split ] ].
      * exists []. rewrite List.app_nil_r. reflexivity.
      * eexists. split; [ reflexivity | ]. constructor; [ | constructor ].
        exists q. auto.
  - unfold onRefreshAnswer. rewrite W.
    split; [ exact W | split; [ exact Fl | split ] ].
    + exists []. rewrite List.app_nil_r. reflexivity.
    + exists []. rewrite List.app_nil_r. split; [ reflexivity | constructor ].
  - unfold onRetryAnswer. rewrite W.
    split; [ exact W | split; [ exact Fl | split ] ].
    + exists []. rewrite List.app_nil_r. reflexivity.
    + exists []. rewrite List.app_nil_r. split; [ reflexivity | constructor ].
Qed.

Lemma clientRun_blocked (es : list ClientEvent) :
  forall (c : Client) (r : Request),
    refresher c = Some (r, WaitQueue) -> isRefreshing c = true ->
    refresher (clientRun es c) = Some (r, WaitQueue) /\
    isRefreshing (clientRun es c) = true /\
    (exists more, refreshQueue (clientRun es c) = refreshQueue c ++ more) /\
    (exists acts, actions (clientRun es c) = actions c ++ acts /\
                  Forall (fun a => exists q, a = AReject q /\ refreshable q = false) acts).
Proof.
  induction es as [ | e es IH ]; intros c r W Fl.
  - cbn. split; [ exact W | split; [ exact Fl | split ] ].
    + exists []. rewrite List.app_nil_r. reflexivity.
    + exists []. rewrite List.app_nil_r. split; [ reflexivity | constructor ].
  - change (clientRun (e :: es) c) with (clientRun es (clientStep c e)).
    destruct (clientStep_blocked c e r W Fl) as (W1 & F1 & (m1 & Q1) & (a1 & A1 & P1)).
    destruct (IH _ r W1 F1) as (W2 & F2 & (m2 & Q2) & (a2 & A2 & P2)).
    split; [ exact W2 | split; [ exact F2 | split ] ].
    + exists (m1 ++ m2). rewrite Q2, Q1, List.app_assoc. reflexivity.
    + exists (a1 ++ a2). rewrite A2, A1, List.app_assoc. split; [ reflexivity | ].
      apply Forall_app. auto.
Qed.

(** X23.  When the request that was sent again with the new token gets a
    401 as well, its interceptor finds isRefreshing set and puts itself
    into the queue that only it would resolve.  From then on, whatever
    arrives: isRefreshing stays set, the refresh end point is not called
    again, the queue only grows, and no request that is entitled to a
    refresh is answered any more; the only answers are the rejections of
    the requests that are not entitled to one. *)
Theorem retry_401_blocks_the_client (access : option string) (rt t : string)
    (r : Request) (es : list ClientEvent) :
  refreshable r = true -> rt <> ""%string -> t <> ""%string ->
  isRefreshing
    (clientRun ([Got401 r; RefreshAnswer (RefreshOk (Some t)); Got401 r] ++ es)
               (clientInit access (Some rt))) = true /\
  (exists more,
     refreshQueue
       (clientRun ([Got401 r; RefreshAnswer (RefreshOk (Some t)); Got401 r] ++ es)
                  (clientInit access (Some rt))) = r :: more) /\
  (exists acts,
     actions
       (clientRun ([Got401 r; RefreshAnswer (RefreshOk (Some t)); Got401 r] ++ es)
                  (clientInit access (Some rt)))
     = [ARefresh rt; ARetry r t] ++ acts /\
     Forall (fun a => exists q, a = AReject q /\ refreshable q = false) acts).
Proof.
  intros Rr Hrt Ht.
  assert (T1 : truthy (Some rt) = Some rt) by (apply truthy_some; auto).
  assert (T2 : truthy (Some t) = Some t) by (apply truthy_some; auto).
  unfold clientRun. rewrite fold_left_app.
  set (c := fold_left clientStep
              [Got401 r; RefreshAnswer (RefreshOk (Some t)); Got401 r]
              (clientInit access (Some rt))).
  assert (C : c = mkClient true [r] (Some t) (Some rt) [ARefresh rt; ARetry r t]
                    (Some (r, WaitQueue))).
  { unfold c. cbn [fold_left clientStep].
    unfold on401 at 2. rewrite Rr. cbn [negb clientInit isRefreshing refreshCookie].
    rewrite T1. unfold setRefreshing, act.
    cbn [isRefreshing refreshQueue accessCookie refreshCookie actions refresher app].
    unfold onRefreshAnswer. cbn [refresher]. rewrite T2.
    unfold setRefreshing, act, resolveRefreshQueue, setCookies.
    cbn [isRefreshing refreshQueue accessCookie refreshCookie actions refresher app map].
    unfold on401. rewrite Rr.
    cbn [negb isRefreshing refreshQueue accessCookie refreshCookie actions refresher app].
    rewrite Nat.eqb_refl. reflexivity. }
  clearbody c. subst c.
  destruct (clientRun_blocked es
              (mkClient true [r] (Some t) (Some rt) [ARefresh rt; ARetry r t]
                 (Some (r, WaitQueue))) r eq_refl eq_refl)
    as (W & Fl & (more & Q) & (acts & A & P)).
  unfold clientRun in *. cbn [refreshQueue actions app] in Q, A.
  split; [ exact Fl | split ].
  - exists more. exact Q.
  - exists acts. split; [ exact A | exact P ].
Qed.

Lemma retry_401_blocks_the_client_witness :
  isRefreshing
    (clientRun ([Got401 (mkRequest 1 "/cart" false);
                 RefreshAnswer (RefreshOk (Some "new"%string));
                 Got401 (mkRequest 1 "/cart" false)]
                ++ [Got401 (mkRequest 2 "/orders" false); RetryAnswer;
                    RefreshAnswer RefreshFailed])
               (clientInit None (Some "refresh"%string))) = true.
Proof.
  refine (proj1 (retry_401_blocks_the_client None "refresh" "new"
                   (mkRequest 1 "/cart" false) _ _ _ _)).
  - reflexivity.
  - discriminate.
  - discriminate.
Defined.

(** X24.  A request that gets its 401 while the refreshing request is
    being sent again is put into the queue, and when that retry settles
    isRefreshing is cleared without the queue being resolved: the request
    is neither sent again nor rejected, and it stays so whatever the
    refresh end point or a retry answers afterwards, as long as no other
    request gets a 401. *)
Theorem queued_during_retry_is_left_waiting (c : Client) (a b : Request)
    (es : list ClientEvent) :
  refresher c = Some (a, WaitRetry) -> isRefreshing c = true ->
  refreshable b = true -> rq_id a <> rq_id b ->
  Forall (fun e => match e with Got401 _ => False | _ => True end) es ->
  isRefreshing (clientRun ([Got401 b; RetryAnswer] ++ es) c) = false /\
  refreshQueue (clientRun ([Got401 b; RetryAnswer] ++ es) c) = refreshQueue c ++ [b] /\
  actions (clientRun ([Got401 b; RetryAnswer] ++ es) c) = actions c.
Proof.
  intros W Fl Rb Hab Hes.
  unfold clientRun. rewrite fold_left_app.
  set (c' := fold_left clientStep [Got401 b; RetryAnswer] c).
  assert (C : c' = mkClient false (refreshQueue c ++ [b]) (accessCookie c)
                     (refreshCookie c) (actions c) None).
  { unfold c'. cbn [fold_left clientStep]. unfold on401. rewrite Rb, Fl, W.
    cbn [negb]. apply Nat.eqb_neq in Hab. rewrite Hab.
    unfold onRetryAnswer. cbn [refresher]. reflexivity. }
  assert (S : fold_left clientStep es c' = c').
  { rewrite C. clear - Hes. induction Hes as [ | e es He _ IH ]; [ reflexivity | ].
    cbn [fold_left]. destruct e as [ q | res | ]; [ contradiction | | ];
      cbn [clientStep]; exact IH. }
  rewrite S, C. auto.
Qed.

Lemma queued_during_retry_is_left_waiting_witness :
  refreshQueue
    (clientRun ([Got401 (mkRequest 2 "/orders" false); RetryAnswer]
                ++ [RefreshAnswer (RefreshOk (Some "newer"%string)); RetryAnswer])
               (clientRun [Got401 (mkRequest 1 "/cart" false);
                           RefreshAnswer (RefreshOk (Some "new"%string))]
                          (clientInit None (Some "refresh"%string))))
  = [mkRequest 2 "/orders" false].
Proof.
  refine (proj1 (proj2 (queued_during_retry_is_left_waiting
            (clientRun [Got401 (mkRequest 1 "/cart" false);
                        RefreshAnswer (RefreshOk (Some "new"%string))]
                       (clientInit None (Some "refresh"%string)))
            (mkRequest 1 "/cart" false) (mkRequest 2 "/orders" false)
            [RefreshAnswer (RefreshOk (Some "newer"%string)); RetryAnswer]
            _ _ _ _ _))).
  - reflexivity.
  - reflexivity.
  - reflexivity.
  - cbn. lia.
  - repeat constructor.
Defined.
